(** * Headline video generator: the route handler and the page logic

    A shallow embedding of [webapp/app/api/headlines/route.ts] and of the
    pure and orchestration parts of [webapp/app/page.tsx], followed by the
    properties established about them.

    JavaScript strings are sequences of UTF-16 code units; they are modelled
    as [list N].  JavaScript numbers that only carry pixel positions, widths
    or progress ratios are modelled as rationals ([Q]): every finite double
    is a rational, and the code only compares, floors and rounds them.
    The fields of a feed item are the values the XML parser leaves there
    (strings, numbers, booleans, objects), not only the strings of the
    declared type [RssItem]; the headlines the page receives are modelled
    at the type [Headline] the page declares. *)

From Stdlib Require Import ZArith NArith QArith Qround String Ascii DecimalString Lia.
From stdpp Require Import base list sorting.
From Equations Require Import Equations.

Local Open Scope N_scope.

(** ** JavaScript strings *)

Abbreviation codeunit := N (only parsing).
Abbreviation jsstring := (list N) (only parsing).

(** String literals of the source files are UTF-8 in the file and UTF-16 at
    run time. *)
Fixpoint utf16_of_utf8 (bs : list N) : jsstring :=
  match bs with
  | [] => []
  | b0 :: r0 =>
      if b0 <? 128 then b0 :: utf16_of_utf8 r0
      else if b0 <? 224 then
        match r0 with
        | b1 :: r1 => ((b0 - 192) * 64 + (b1 - 128)) :: utf16_of_utf8 r1
        | [] => []
        end
      else if b0 <? 240 then
        match r0 with
        | b1 :: b2 :: r2 =>
            ((b0 - 224) * 4096 + (b1 - 128) * 64 + (b2 - 128)) :: utf16_of_utf8 r2
        | _ => []
        end
      else
        match r0 with
        | b1 :: b2 :: b3 :: r3 =>
            let cp := (b0 - 240) * 262144 + (b1 - 128) * 4096
                      + (b2 - 128) * 64 + (b3 - 128) in
            let v := cp - 65536 in
            (55296 + v / 1024) :: (56320 + v mod 1024) :: utf16_of_utf8 r3
        | _ => []
        end
  end.

Definition js (s : string) : jsstring :=
  utf16_of_utf8 (map N_of_ascii (list_ascii_of_string s)).

Definition SP : codeunit := 32.
Definition LT : codeunit := 60.
Definition GT : codeunit := 62.

(** The class [\s] of a regular expression without the [u] flag; [trim]
    strips the same set (WhiteSpace and LineTerminator). *)
Definition isWhiteSpace (c : codeunit) : bool :=
  ((9 <=? c) && (c <=? 13)) || (c =? 32) || (c =? 160) || (c =? 5760)
  || ((8192 <=? c) && (c <=? 8202)) || (c =? 8232) || (c =? 8233)
  || (c =? 8239) || (c =? 8287) || (c =? 12288) || (c =? 65279).

Fixpoint dropWhile {A} (p : A -> bool) (l : list A) : list A :=
  match l with
  | [] => []
  | x :: r => if p x then dropWhile p r else l
  end.

Fixpoint takeWhile {A} (p : A -> bool) (l : list A) : list A :=
  match l with
  | [] => []
  | x :: r => if p x then x :: takeWhile p r else []
  end.

(** [String.prototype.trim]. *)
Definition trimStart (s : jsstring) : jsstring := dropWhile isWhiteSpace s.
Definition trimEnd (s : jsstring) : jsstring := rev (dropWhile isWhiteSpace (rev s)).
Definition trim (s : jsstring) : jsstring := trimEnd (trimStart s).

(** [s.replace(re, by)] for a global regular expression [re] whose matches
    are never empty.  [re] is given by its matcher: [m t] is the length of
    the match of [re] that starts at the beginning of [t], if there is one.
    The scan goes left to right and resumes after each match. *)
Equations? replaceAll (m : jsstring -> option nat) (by_ : jsstring) (s : jsstring)
  : jsstring by wf (length s) lt :=
  replaceAll m by_ [] := [];
  replaceAll m by_ (c :: rest) with m (c :: rest) => {
    | Some (S k) := by_ ++ replaceAll m by_ (drop k rest);
    | _ := c :: replaceAll m by_ rest }.
Proof. all: simpl; try lia. rewrite length_drop. lia. Qed.

(** The matcher of [/<[^>]+>/]: a [<], one or more code units other than
    [>] (as many as possible), then a [>]. *)
Fixpoint indexOf (c : codeunit) (s : jsstring) : option nat :=
  match s with
  | [] => None
  | x :: r => if x =? c then Some O else option_map S (indexOf c r)
  end.

Definition matchTag (s : jsstring) : option nat :=
  match s with
  | c :: d :: r =>
      if (c =? LT) && negb (d =? GT) then
        match indexOf GT r with
        | Some j => Some (j + 3)%nat
        | None => None
        end
      else None
  | _ => None
  end.

(** The matcher of [/\s+/]: a maximal run of white space. *)
Definition matchSpaces (s : jsstring) : option nat :=
  match takeWhile isWhiteSpace s with
  | [] => None
  | run => Some (length run)
  end.

(** ** Settling of calls

    A call either returns, throws a value, or (an awaited promise) never
    settles.  Of a thrown value the code only looks at whether it is an
    [Error] and, if so, at its message. *)

Inductive Thrown :=
| ErrorObject (message : jsstring)
| OtherValue.

Inductive Outcome (A : Type) :=
| Returns (a : A)
| Throws (e : Thrown)
| Pending.
Arguments Returns {A} a.
Arguments Throws {A} e.
Arguments Pending {A}.

#[global] Instance outcome_ret : MRet Outcome := fun A a => Returns a.
#[global] Instance outcome_bind : MBind Outcome := fun A B f m =>
  match m with
  | Returns a => f a
  | Throws e => Throws e
  | Pending => Pending
  end.

Definition isPending {A} (o : Outcome A) : bool :=
  match o with Pending => true | _ => false end.

(** ** The headline as the page declares it (lines 7-12 of [page.tsx]) *)

Record Headline := mkHeadline {
  title : jsstring;
  link : jsstring;
  publishedAt : jsstring;
  description : jsstring;
}.

(** [a || b] on strings: the empty string is falsy. *)
Definition orElse (a b : jsstring) : jsstring :=
  match a with [] => b | _ => a end.

(** ** [app/api/headlines/route.ts] *)

Module Route.

(** What the parser leaves under a tag or an attribute.  The parser is
    built with [parseTagValue] at its default and [parseAttributeValue]
    on, so a text that reads as a number or as a boolean is converted;
    a tag with attributes or children is an object and a repeated tag an
    array.  Of a number the handler only looks at whether it is zero; an
    object, an array or a function is [TagOther]: truthy, and without a
    [replace] method. *)
Inductive TagValue :=
| TagString (s : jsstring)
| TagNumber (n : Q)
| TagBoolean (b : bool)
| TagOther.

(** The declared type of an item (lines 4-9) has four optional strings;
    what the handler reads at run time is whatever the parser left, so a
    field is a [TagValue], or [None] for [undefined].  An item that is
    not an object (a text, a number) has none of the four fields, except
    that a text has [String.prototype.link] as [link]: a function. *)
Record RssItem := mkRssItem {
  title : option TagValue;
  link : option TagValue;
  pubDate : option TagValue;
  description : option TagValue;
}.

(** What [parser.parse(xml)] yields, as far as the handler looks at it:
    [parsed?.rss?.channel] and then [channel?.item], which the parser
    makes an array when the channel has several items and a single value
    when it has one.  [ItemAbsent] is a missing or falsy [item],
    [ItemSingle] a truthy one that is not an array. *)
Inductive ItemField :=
| ItemAbsent
| ItemSingle (it : RssItem)
| ItemArray (its : list RssItem).

Record Channel := mkChannel { item : ItemField }.
Record Rss := mkRss { channel : option Channel }.
Record Parsed := mkParsed { rss : option Rss }.

(** [sanitizeText(value?: string)] on its declared type; [None] is
    [undefined]. *)
Definition sanitizeText (value : option jsstring) : jsstring :=
  match value with
  | None => []
  | Some [] => []
  | Some v => trim (replaceAll matchSpaces [SP] (replaceAll matchTag [SP] v))
  end.

(** [!value]: [undefined], the empty string, zero and [false]. *)
Definition falsy (value : option TagValue) : bool :=
  match value with
  | None => true
  | Some (TagString s) => match s with [] => true | _ => false end
  | Some (TagNumber n) => Qeq_bool n 0
  | Some (TagBoolean b) => negb b
  | Some TagOther => false
  end.

(** The message of the [TypeError] of a call of a method that is not
    there; the handler only logs it. *)
Definition NOT_A_FUNCTION : jsstring := js "value.replace is not a function".

(** The calls [sanitizeText(item.title)] and
    [sanitizeText(item.description)], on whatever the item holds: line 23
    returns the empty string for a falsy value; on line 24 only a string
    has [replace], for any other value the call throws. *)
Definition sanitizeTextOf (value : option TagValue) : Outcome jsstring :=
  if falsy value then Returns []
  else
    match value with
    | Some (TagString s) => Returns (sanitizeText (Some s))
    | _ => Throws (ErrorObject NOT_A_FUNCTION)
    end.

(** Lines 46-51: the coercion of [channel?.item] to an array. *)
Definition itemsOf (parsed : Parsed) : list RssItem :=
  let channel := rss parsed ≫= channel in
  match channel with
  | Some ch =>
      match item ch with
      | ItemArray its => its
      | ItemSingle it => [it]
      | ItemAbsent => []
      end
  | None => []
  end.

Definition UNKNOWN_TITLE : jsstring := js "अज्ञात शीर्षक".

(** The object of lines 53-58, as it is handed to [NextResponse.json]:
    [title] and [description] are strings, [link] and [publishedAt] are
    what the item held. *)
Record HeadlineJson := mkHeadlineJson {
  json_title : jsstring;
  json_link : TagValue;
  json_publishedAt : TagValue;
  json_description : jsstring;
}.

(** [a ?? b]: [b] only for [undefined]. *)
Definition nullish (a : option TagValue) (b : TagValue) : TagValue :=
  match a with Some v => v | None => b end.

(** Lines 53-58, for one item; the properties are evaluated in the order
    they are written. *)
Definition toHeadline (it : RssItem) : Outcome HeadlineJson :=
  t ← sanitizeTextOf (title it);
  let l := nullish (link it) (TagString []) in
  let p := nullish (pubDate it) (TagString []) in
  d ← sanitizeTextOf (description it);
  mret (mkHeadlineJson (orElse t UNKNOWN_TITLE) l p d).

(** Lines 53-58: [items.slice(0, 6).map(...)]; the first call that
    throws ends the mapping. *)
Definition headlinesOf (items : list RssItem) : Outcome (list HeadlineJson) :=
  mapM toHeadline (take 6 items).

(** The upstream feed and the XML parser, as the handler meets them. *)
Record UpstreamResponse := mkUpstreamResponse {
  ok : bool;
  text : Outcome jsstring;
}.

Record Upstream := mkUpstream {
  fetch : Outcome UpstreamResponse;
  parse : jsstring -> Outcome Parsed;
}.

Inductive Body :=
| HeadlinesBody (headlines : list HeadlineJson)
| ErrorBody (error : jsstring).

Record JsonResponse := mkJsonResponse {
  body : Body;
  status : nat;
}.

(** [NextResponse.json(body, init?)]: the status is 200 unless given. *)
Definition json (b : Body) (init : option nat) : JsonResponse :=
  mkJsonResponse b (default 200%nat init).

(** The [try] block of [GET]. *)
Definition GET_try (w : Upstream) : Outcome JsonResponse :=
  response ← fetch w;
  if negb (ok response) then
    mret (json (ErrorBody (js "Failed to fetch headlines")) (Some 502%nat))
  else
    xml ← text response;
    parsed ← parse w xml;
    let items := itemsOf parsed in
    headlines ← headlinesOf items;
    mret (json (HeadlinesBody headlines) None).

(** [GET]: the [catch] clause answers 500 (after writing to the server
    console, which is not modelled); a promise that never settles leaves
    the request unanswered. *)
Definition GET (w : Upstream) : Outcome JsonResponse :=
  match GET_try w with
  | Throws _ =>
      mret (json (ErrorBody (js "Unexpected error while fetching headlines")) (Some 500%nat))
  | r => r
  end.

End Route.

(** ** [app/page.tsx] *)

Module Page.

Inductive GenerationStatus := idle | fetching | rendering | done | error.

Definition CANVAS_WIDTH : Q := 1280.
Definition CANVAS_HEIGHT : Q := 720.

(** *** The drawing surface *)

Inductive FillStyle :=
| Color (css : jsstring)
| LinearGradient (x0 y0 x1 y1 : Q) (stops : list (Q * jsstring)).

Inductive DrawOp :=
| FillRect (style : FillStyle) (x y w h : Q)
| FillText (style : FillStyle) (font : jsstring) (text : jsstring) (x y : Q).

(** A 2D context: its two settings the code assigns, and what was drawn so
    far, oldest first. *)
Record Ctx := mkCtx {
  fillStyle : FillStyle;
  font : jsstring;
  ops : list DrawOp;
}.

Definition setFillStyle (s : FillStyle) (ctx : Ctx) : Ctx :=
  mkCtx s (font ctx) (ops ctx).
Definition setFont (f : jsstring) (ctx : Ctx) : Ctx :=
  mkCtx (fillStyle ctx) f (ops ctx).
Definition fillRect (x y w h : Q) (ctx : Ctx) : Ctx :=
  mkCtx (fillStyle ctx) (font ctx) (ops ctx ++ [FillRect (fillStyle ctx) x y w h]).
Definition fillText (t : jsstring) (x y : Q) (ctx : Ctx) : Ctx :=
  mkCtx (fillStyle ctx) (font ctx) (ops ctx ++ [FillText (fillStyle ctx) (font ctx) t x y]).

(** The texts of the [fillText] calls of a drawing, in order. *)
Definition fillTexts (l : list DrawOp) : list jsstring :=
  omap (fun op => match op with FillText _ _ t _ _ => Some t | _ => None end) l.

(** What the browser provides and the code calls: [new Date(value)] (its
    time value, [None] for NaN), the [format] method of the
    [Intl.DateTimeFormat] the code builds (on a valid date),
    [ctx.measureText(text).width] under a given font, the PNG bytes of a
    drawing ([canvas.toDataURL] then [fetchFile]), [TextEncoder.encode]. *)
Record Runtime := mkRuntime {
  dateParse : jsstring -> option Z;
  dateTimeFormat : Z -> jsstring;
  measureText : jsstring -> jsstring -> Q;
  toPng : list DrawOp -> list N;
  utf8Encode : jsstring -> list N;
}.

Definition TIME_UNAVAILABLE : jsstring := js "समय उपलब्ध नहीं".

(** [Intl.DateTimeFormat.prototype.format] throws a [RangeError] on an
    invalid date. *)
Definition DateTimeFormat_format (rt : Runtime) (date : option Z) : Outcome jsstring :=
  match date with
  | Some t => Returns (dateTimeFormat rt t)
  | None => Throws (ErrorObject (js "Invalid time value"))
  end.

Definition formatToHindiDate (rt : Runtime) (value : jsstring) : Outcome jsstring :=
  match value with
  | [] => Returns TIME_UNAVAILABLE
  | _ =>
      let date := dateParse rt value in
      if bool_decide (date = None) then Returns TIME_UNAVAILABLE
      else DateTimeFormat_format rt date
  end.

(** *** [wrapHeadlineText] *)

Definition ELLIPSIS : jsstring := js "…".

(** [s.split(sep)] for a separator of one code unit. *)
Fixpoint split (sep : codeunit) (s : jsstring) : list jsstring :=
  match s with
  | [] => [[]]
  | c :: r =>
      if c =? sep then [] :: split sep r
      else match split sep r with
           | w :: ws => (c :: w) :: ws
           | [] => [[c]]
           end
  end.

(** [s.slice(0, -1)]. *)
Definition sliceOffLast (s : jsstring) : jsstring := take (length s - 1) s.

Definition isEmpty (s : jsstring) : bool :=
  match s with [] => true | _ => false end.

Section Wrap.

Variable measure : jsstring -> Q.
Variable maxWidth : Q.

(** [ctx.measureText(s).width > maxWidth]. *)
Definition tooWide (s : jsstring) : bool :=
  if Qlt_le_dec maxWidth (measure s) then true else false.

(** One turn of the loop of lines 55-64 on the pair [(lines, line)]. *)
Definition wrapStep (st : list jsstring * jsstring) (word : jsstring)
  : list jsstring * jsstring :=
  let '(lines, line) := st in
  let testLine := if isEmpty line then word else line ++ [SP] ++ word in
  if tooWide testLine && negb (isEmpty line) then (lines ++ [line], word)
  else (lines, testLine).

(** Lines 51-68: the array [lines] once the last line is pushed. *)
Definition greedyLines (normalized : jsstring) : list jsstring :=
  let words := split SP normalized in
  let '(lines, line) := fold_left wrapStep words ([], []) in
  if isEmpty line then lines else lines ++ [line].

(** The loop of lines 75-77: drop the last code unit while the line with
    the ellipsis is too wide and the line is not empty. *)
Equations? shrinkToFit (lastLine : jsstring) : jsstring by wf (length lastLine) lt :=
  shrinkToFit [] := [];
  shrinkToFit (c :: r) with tooWide ((c :: r) ++ ELLIPSIS) => {
    | true := shrinkToFit (sliceOffLast (c :: r));
    | false := c :: r }.
Proof.
  unfold sliceOffLast. rewrite length_take. simpl. lia.
Qed.

(** Lines 70-79: the array [boundedLines] that is drawn. *)
Definition boundedLinesOf (lines : list jsstring) (maxLines : Q) : list jsstring :=
  let limit := Z.max 1 (Qfloor maxLines) in
  let boundedLines := take (Z.to_nat limit) lines in
  if (limit <? Z.of_nat (length lines))%Z then
    let lastLine := default [] (boundedLines !! (length boundedLines - 1)%nat) in
    let lastLine := shrinkToFit lastLine in
    <[(length boundedLines - 1)%nat := lastLine ++ ELLIPSIS]> boundedLines
  else boundedLines.

End Wrap.

Definition normalize (text : jsstring) : jsstring :=
  trim (replaceAll matchSpaces [SP] text).

(** [wrapHeadlineText(ctx, text, x, y, maxWidth, lineHeight, maxLines = 6)]:
    the context after the calls of [fillText], and the returned [currentY]. *)
Definition wrapHeadlineText (rt : Runtime) (ctx : Ctx) (text : jsstring)
    (x y maxWidth lineHeight : Q) (maxLines : option Q) : Ctx * Q :=
  let maxLines := default (6 : Q) maxLines in
  let normalized := normalize text in
  if isEmpty normalized then (ctx, y)
  else
    let measure := measureText rt (font ctx) in
    let lines := greedyLines measure maxWidth normalized in
    let boundedLines := boundedLinesOf measure maxWidth lines maxLines in
    fold_left
      (fun '(ctx, currentY) entry => (fillText entry x currentY ctx, (currentY + lineHeight)%Q))
      boundedLines (ctx, y).

(** *** [createFrame] *)

Record Frame := mkFrame {
  name : jsstring;
  data : list N;
}.

(** [n.toString()] for a non-negative integer. *)
Definition numToString (n : nat) : jsstring :=
  js (NilZero.string_of_uint (Nat.to_uint n)).

(** [s.padStart(targetLength, padString)]. *)
Definition padStart (targetLength : nat) (padString : jsstring) (s : jsstring) : jsstring :=
  let missing := (targetLength - length s)%nat in
  take missing (concat (replicate missing padString)) ++ s.

(** The context of a canvas just created. *)
Definition freshCtx : Ctx := mkCtx (Color (js "#000000")) (js "10px sans-serif") [].

Definition HEADLINE_FONTS : jsstring := js "'Noto Sans Devanagari', 'Hind', sans-serif".

(** [createFrame(headline, index, total)]; [hasContext] tells whether
    [canvas.getContext("2d")] gives a context rather than [null]. *)
Definition createFrame (rt : Runtime) (hasContext : bool)
    (headline : Headline) (index total : nat) : Outcome Frame :=
  if negb hasContext then
    Throws (ErrorObject (js "Canvas rendering context unavailable"))
  else
    let ctx := freshCtx in
    let gradient :=
      LinearGradient 0 0 CANVAS_WIDTH CANVAS_HEIGHT
        [(0%Q, js "#0f172a"); (1%Q, js "#1e293b")] in
    let ctx := setFillStyle gradient ctx in
    let ctx := fillRect 0 0 CANVAS_WIDTH CANVAS_HEIGHT ctx in
    let overlayGradient :=
      LinearGradient 0 0 0 CANVAS_HEIGHT
        [(0%Q, js "rgba(15, 23, 42, 0.2)"); (1%Q, js "rgba(8, 47, 73, 0.8)")] in
    let ctx := setFillStyle overlayGradient ctx in
    let ctx := fillRect 0 0 CANVAS_WIDTH CANVAS_HEIGHT ctx in
    let ctx := setFillStyle (Color (js "rgba(255,255,255,0.92)")) ctx in
    let ctx := setFont (js "600 56px " ++ HEADLINE_FONTS) ctx in
    let ctx := fillText (js "आज की सुर्ख़ियाँ") 80 140 ctx in
    let ctx := setFont (js "400 34px " ++ HEADLINE_FONTS) ctx in
    let ctx := setFillStyle (Color (js "rgba(226,232,240,0.96)")) ctx in
    let ctx :=
      fst (wrapHeadlineText rt ctx (title headline) 80 220
             (CANVAS_WIDTH - 160) 58 (Some (3 : Q))) in
    let ctx :=
      if isEmpty (description headline) then ctx
      else
        let ctx := setFont (js "300 28px " ++ HEADLINE_FONTS) ctx in
        let ctx := setFillStyle (Color (js "rgba(203,213,225,0.9)")) ctx in
        fst (wrapHeadlineText rt ctx (description headline) 80 420
               (CANVAS_WIDTH - 160) 46 (Some (4 : Q))) in
    let ctx := setFont (js "500 26px 'Inter', 'Hind', sans-serif") ctx in
    let ctx := setFillStyle (Color (js "rgba(148,163,184,0.95)")) ctx in
    let ctx :=
      fillText (numToString (index + 1) ++ js " / " ++ numToString total)
        (CANVAS_WIDTH - 160) (CANVAS_HEIGHT - 80) ctx in
    let ctx := setFont (js "400 24px 'Inter', sans-serif") ctx in
    dateText ← formatToHindiDate rt (publishedAt headline);
    let ctx := fillText dateText 80 (CANVAS_HEIGHT - 80) ctx in
    let data := toPng rt (ops ctx) in
    let name := js "frame" ++ padStart 3 (js "0") (numToString index) ++ js ".png" in
    mret (mkFrame name data).

(** [Promise.all(tasks)]: the promises settle in the order [order] (indices
    into [tasks]); a fulfilled one stores its value at its own index, the
    first rejected one rejects the whole, and the whole is fulfilled once
    every slot is filled. *)
Fixpoint settleAll {A} (order : list nat) (tasks : list (Outcome A))
    (values : list (option A)) : Outcome (list A) :=
  match order with
  | [] =>
      match mapM id values with
      | Some vs => Returns vs
      | None => Pending
      end
  | i :: rest =>
      match tasks !! i with
      | Some (Returns v) => settleAll rest tasks (<[i := Some v]> values)
      | Some (Throws e) => Throws e
      | _ => settleAll rest tasks values
      end
  end.

Definition promiseAll {A} (order : list nat) (tasks : list (Outcome A)) : Outcome (list A) :=
  settleAll order tasks (replicate (length tasks) None).

(** Lines 256-258. *)
Definition renderFrames (rt : Runtime) (hasContext : nat -> bool) (order : list nat)
    (fetched : list Headline) : Outcome (list Frame) :=
  promiseAll order
    (imap (fun index item => createFrame rt (hasContext index) item index (length fetched))
       fetched).

(** *** The component: refs, state setters and the encoder boundary *)

Inductive FileData :=
| Uint8Array (bytes : list N)
| StringData (s : jsstring)
| OtherData.

Record FSNode := mkFSNode {
  node_name : jsstring;
  isDir : bool;
}.

Record HeadlinesPayload := mkPayload {
  headlines : option (list Headline);
  payload_error : option jsstring;
}.

Record HeadlinesResponse := mkHeadlinesResponse {
  resp_ok : bool;
  resp_json : Outcome HeadlinesPayload;
}.

(** How the collaborators of one run behave: the request to
    [/api/headlines], the encoder ([load], [listDir], [deleteFile],
    [writeFile], [exec] with the progress events it emits, [readFile]), the
    canvases, the order in which the frame promises settle, and the URL
    that [URL.createObjectURL] hands out. *)
Record World := mkWorld {
  fetchHeadlines : Outcome HeadlinesResponse;
  ffLoad : Outcome unit;
  ffListDir : Outcome (list FSNode);
  ffDeleteFile : jsstring -> Outcome unit;
  hasContext : nat -> bool;
  completionOrder : list nat;
  ffWriteFile : jsstring -> Outcome unit;
  ffExecProgress : list (option Q);
  ffExec : Outcome unit;
  ffReadFile : Outcome FileData;
  createObjectURL : jsstring;
}.

(** What a run does that can be seen from outside: calls of the state
    setters and calls that reach the encoder, the console or [URL]. *)
Inductive Effect :=
| SetHeadlines (hs : list Headline)
| SetStatus (s : GenerationStatus)
| SetError (e : option jsstring)
| SetVideoUrl (u : option jsstring)
| SetIsGenerating (b : bool)
| SetProgress (p : Z)
| RevokeObjectURL (u : jsstring)
| ConsoleError (e : Thrown)
| DeleteFile (path : jsstring)
| WriteFile (path : jsstring) (bytes : list N)
| Exec (args : list jsstring)
| CreateObjectURL (bytes : list N).

(** The refs of the component ([ffmpegRef.current] is [None] for [null],
    else the [loaded] flag of the instance; the progress handler is
    attached to every instance the component creates) and the effects so
    far, oldest first. *)
Record RunState := mkRunState {
  ffmpegRef : option bool;
  videoUrlRef : option jsstring;
  progressHandlerRef : bool;
  trace : list Effect;
}.

Definition Run (A : Type) : Type := RunState -> Outcome A * RunState.

#[global] Instance run_ret : MRet Run := fun A a s => (Returns a, s).
#[global] Instance run_bind : MBind Run := fun A B f m s =>
  match m s with
  | (Returns a, s') => f a s'
  | (Throws e, s') => (Throws e, s')
  | (Pending, s') => (Pending, s')
  end.

Definition emit (e : Effect) : Run unit := fun s =>
  (Returns tt, mkRunState (ffmpegRef s) (videoUrlRef s) (progressHandlerRef s) (trace s ++ [e])).

Definition await {A} (o : Outcome A) : Run A := fun s => (o, s).

Definition throw {A} (e : Thrown) : Run A := fun s => (Throws e, s).

Definition getRefs : Run RunState := fun s => (Returns s, s).

Definition setFfmpegRef (r : option bool) : Run unit := fun s =>
  (Returns tt, mkRunState r (videoUrlRef s) (progressHandlerRef s) (trace s)).
Definition setVideoUrlRef (r : option jsstring) : Run unit := fun s =>
  (Returns tt, mkRunState (ffmpegRef s) r (progressHandlerRef s) (trace s)).
Definition setProgressHandlerRef (r : bool) : Run unit := fun s =>
  (Returns tt, mkRunState (ffmpegRef s) (videoUrlRef s) r (trace s)).

Definition when (b : bool) (m : Run unit) : Run unit :=
  if b then m else mret tt.

Fixpoint forEach {A} (l : list A) (f : A -> Run unit) : Run unit :=
  match l with
  | [] => mret tt
  | a :: r => f a;; forEach r f
  end.

(** [try { body } catch (err) { handler } finally { fin }], for a handler
    and a [finally] block that do not throw. *)
Definition tryCatchFinally (body : Run unit) (handler : Thrown -> Run unit)
    (fin : Run unit) : Run unit := fun s =>
  match body s with
  | (Returns _, s') => fin s'
  | (Throws e, s') => (handler e;; fin) s'
  | (Pending, s') => (Pending, s')
  end.

(** [Math.round]: the nearest integer, ties towards plus infinity.  The
    numbers are exact rationals here, where the code computes with
    doubles: [raw * 100] is rounded to a double before [Math.round], so
    on a product that falls on or next to a tie the code can be one off
    this function, and [NaN] and the infinities have no counterpart. *)
Definition Math_round (x : Q) : Z := Qfloor (x + (1 # 2)).

(** Lines 183-187: the progress handler; [None] is an event whose
    [progress] is not a number. *)
Definition handler (raw : option Q) : Run unit :=
  match raw with
  | Some raw => emit (SetProgress (Z.min 100 (Math_round (raw * 100))))
  | None => mret tt
  end.

Definition ensureFfmpeg (w : World) : Run unit :=
  s ← getRefs;
  when (bool_decide (ffmpegRef s = None))
    (setProgressHandlerRef true;; setFfmpegRef (Some false));;
  s ← getRefs;
  when (negb (default false (ffmpegRef s)))
    (await (ffLoad w);; setFfmpegRef (Some true)).

Fixpoint startsWith (p s : jsstring) : bool :=
  match p, s with
  | [], _ => true
  | a :: p', b :: s' => (a =? b) && startsWith p' s'
  | _ :: _, [] => false
  end.

Definition isStale (entry : FSNode) : bool :=
  negb (isDir entry)
  && (startsWith (js "frame") (node_name entry)
      || bool_decide (node_name entry = js "output.mp4")).

(** [cleanupFfmpegFiles]: every deletion is started before any is awaited,
    and what a deletion or the listing throws is dropped. *)
Definition cleanupFfmpegFiles (w : World) : Run unit := fun s =>
  match ffListDir w with
  | Returns entries =>
      let stale := List.filter isStale entries in
      (forEach stale (fun entry => emit (DeleteFile (node_name entry)));;
       await (if forallb (fun entry =>
                    negb (isPending (ffDeleteFile w (node_name entry)))) stale
              then Returns tt else Pending)) s
  | Throws _ => (Returns tt, s)
  | Pending => (Pending, s)
  end.

(** *** [handleGenerate] *)

Definition NO_HEADLINES_TODAY : jsstring := js "आज के लिए कोई सुर्ख़ियाँ उपलब्ध नहीं हैं।".
Definition SOMETHING_WENT_WRONG : jsstring := js "कुछ गलत हुआ, कृपया पुनः प्रयास करें।".

Definition EXEC_ARGS : list jsstring :=
  [js "-framerate"; js "1/3"; js "-start_number"; js "0"; js "-i"; js "frame%03d.png";
   js "-c:v"; js "libx264"; js "-r"; js "30"; js "-pix_fmt"; js "yuv420p";
   js "-movflags"; js "+faststart"; js "output.mp4"].

(** The [try] block, lines 236-303. *)
Definition handleGenerate_try (rt : Runtime) (w : World) : Run unit :=
  response ← await (fetchHeadlines w);
  when (negb (resp_ok response))
    (payload ← await (match resp_json response with
                      | Throws _ => Returns (mkPayload None None)
                      | r => r
                      end);
     throw (ErrorObject (default (js "Headlines fetch failed") (payload_error payload))));;
  payload ← await (resp_json response);
  let fetched := default [] (headlines payload) in
  when (bool_decide (length fetched = 0%nat))
    (throw (ErrorObject NO_HEADLINES_TODAY));;
  emit (SetHeadlines fetched);;
  emit (SetStatus rendering);;
  emit (SetProgress 15);;
  ensureFfmpeg w;;
  cleanupFfmpegFiles w;;
  frames ← await (renderFrames rt (hasContext w) (completionOrder w) fetched);
  emit (SetProgress 40);;
  forEach frames (fun frame =>
    emit (WriteFile (name frame) (data frame));;
    await (ffWriteFile w (name frame)));;
  emit (SetProgress 55);;
  emit (Exec EXEC_ARGS);;
  s ← getRefs;
  when (progressHandlerRef s) (forEach (ffExecProgress w) handler);;
  await (ffExec w);;
  emit (SetProgress 85);;
  data ← await (ffReadFile w);
  let binary :=
    match data with
    | Uint8Array bytes => bytes
    | StringData str => utf8Encode rt str
    | OtherData => []
    end in
  emit (CreateObjectURL binary);;
  let objectUrl := createObjectURL w in
  setVideoUrlRef (Some objectUrl);;
  emit (SetVideoUrl (Some objectUrl));;
  emit (SetProgress 100);;
  emit (SetStatus done).

Definition handleGenerate (rt : Runtime) (w : World) : Run unit :=
  emit (SetError None);;
  emit (SetVideoUrl None);;
  s ← getRefs;
  when (negb (isEmpty (default [] (videoUrlRef s))))
    (emit (RevokeObjectURL (default [] (videoUrlRef s)));;
     setVideoUrlRef None);;
  emit (SetProgress 0);;
  emit (SetStatus fetching);;
  emit (SetIsGenerating true);;
  emit (SetProgress 5);;
  tryCatchFinally
    (handleGenerate_try rt w)
    (fun err =>
       emit (ConsoleError err);;
       emit (SetError (Some match err with
                            | ErrorObject message => message
                            | OtherValue => SOMETHING_WENT_WRONG
                            end));;
       emit (SetStatus error))
    (emit (SetIsGenerating false)).

(** The component as mounted, before any run. *)
Definition mounted : RunState := mkRunState None None false [].

(** The React state a trace of effects leaves, started from the initial
    values of the [useState] calls. *)
Definition statusAfter (t : list Effect) : GenerationStatus :=
  fold_left (fun st e => match e with SetStatus s => s | _ => st end) t idle.
Definition errorAfter (t : list Effect) : option jsstring :=
  fold_left (fun st e => match e with SetError m => m | _ => st end) t None.
Definition videoUrlAfter (t : list Effect) : option jsstring :=
  fold_left (fun st e => match e with SetVideoUrl u => u | _ => st end) t None.

(** The arguments of the calls of [setStatus] and of [setProgress], in
    order. *)
Definition statusOf (e : Effect) : option GenerationStatus :=
  match e with SetStatus s => Some s | _ => None end.
Definition progressOf (e : Effect) : option Z :=
  match e with SetProgress p => Some p | _ => None end.
Definition fileOf (e : Effect) : option Frame :=
  match e with WriteFile n d => Some (mkFrame n d) | _ => None end.

Definition statusUpdates (t : list Effect) : list GenerationStatus := omap statusOf t.
Definition progressUpdates (t : list Effect) : list Z := omap progressOf t.
Definition filesWritten (t : list Effect) : list Frame := omap fileOf t.

End Page.

(** * Specification vocabulary *)

(** No match of the pattern of [m] starts anywhere in the string. *)
Fixpoint noMatch (m : jsstring -> option nat) (s : jsstring) : Prop :=
  match s with
  | [] => True
  | c :: r => m (c :: r) = None /\ noMatch m r
  end.

(** Every white space of the string is a single [U+0020] between two
    other code units or at an end. *)
Fixpoint singleSpaced (s : jsstring) : Prop :=
  match s with
  | [] => True
  | c :: r =>
      (isWhiteSpace c = true ->
       c = SP /\ match r with d :: _ => isWhiteSpace d = false | [] => True end)
      /\ singleSpaced r
  end.

(** [tailOf ws]: the words [ws], each preceded by a space. *)
Definition tailOf (ws : list jsstring) : jsstring :=
  concat (map (fun w => SP :: w) ws).

(** A place where a line may end: the end of the text, or just before a
    space. *)
Definition atWordBoundary (suf : jsstring) : Prop :=
  suf = [] \/ exists suf', suf = SP :: suf'.

(** The file name of the frame of a given index. *)
Definition frameName (index : nat) : jsstring :=
  js "frame" ++ Page.padStart 3 (js "0") (Page.numToString index) ++ js ".png".

Definition FRAME_NAMES : list jsstring :=
  [js "frame000.png"; js "frame001.png"; js "frame002.png";
   js "frame003.png"; js "frame004.png"; js "frame005.png"].

(** A computation that is quiet for an observer of effects: whatever it
    adds to the trace, the observer sees nothing of it. *)
Definition quiet {A X} (obs : Page.Effect -> option X) (m : Page.Run A) : Prop :=
  forall s, exists new,
    Page.trace (snd (m s)) = Page.trace s ++ new /\ omap obs new = [].

(** A computation whose progress updates never go down and stay between
    [lo] and [hi]. *)
Definition climbs {A} (lo hi : Z) (m : Page.Run A) : Prop :=
  forall s, exists new,
    Page.trace (snd (m s)) = Page.trace s ++ new
    /\ StronglySorted Z.le (Page.progressUpdates new)
    /\ Forall (fun p => lo <= p <= hi)%Z (Page.progressUpdates new).

(** A line that fits the width or is a single word. *)
Definition fitsOrSingleWord (measure : jsstring -> Q) (maxWidth : Q) (l : jsstring) : Prop :=
  (measure l <= maxWidth)%Q \/ Forall (fun c => c <> SP) l.

(** [lines.join(" ")]. *)
Fixpoint joinSp (ls : list jsstring) : jsstring :=
  match ls with
  | [] => []
  | l :: r => match r with [] => l | _ => l ++ SP :: joinSp r end
  end.

(** [Math.max(1, Math.floor(maxLines))] as a number of lines. *)
Definition lineLimit (maxLines : Q) : nat := Z.to_nat (Z.max 1 (Qfloor maxLines)).

(** Observers of single effects. *)
Definition nothing (e : Page.Effect) : option unit := None.
Definition generatingOf (e : Page.Effect) : option bool :=
  match e with Page.SetIsGenerating b => Some b | _ => None end.
Definition videoUrlOf (e : Page.Effect) : option (option jsstring) :=
  match e with Page.SetVideoUrl u => Some u | _ => None end.
Definition errorOf (e : Page.Effect) : option (option jsstring) :=
  match e with Page.SetError m => Some m | _ => None end.
Definition statusButRendering (e : Page.Effect) : option Page.GenerationStatus :=
  match e with
  | Page.SetStatus Page.rendering => None
  | Page.SetStatus s => Some s
  | _ => None
  end.

(** The text the [catch] clause of [handleGenerate] shows for a thrown
    value. *)
Definition errorText (e : Thrown) : jsstring :=
  match e with
  | ErrorObject message => message
  | OtherValue => Page.SOMETHING_WENT_WRONG
  end.

(** The last three effects of a [try] block that completes. *)
Definition DONE_TAIL (url : jsstring) : list Page.Effect :=
  [Page.SetVideoUrl (Some url); Page.SetProgress 100; Page.SetStatus Page.done].

(** A computation that, when it returns, has [videoUrlRef] at [url] and
    [DONE_TAIL url] as its last effects. *)
Definition returnsDone {A} (url : jsstring) (m : Page.Run A) : Prop :=
  forall s a s', m s = (Returns a, s') ->
    Page.videoUrlRef s' = Some url
    /\ exists front, Page.trace s' = Page.trace s ++ front ++ DONE_TAIL url.

(** A computation that never touches [videoUrlRef]. *)
Definition keepsUrlRef {A} (m : Page.Run A) : Prop :=
  forall s, Page.videoUrlRef (snd (m s)) = Page.videoUrlRef s.

(** A computation that, unless it returns, is quiet for an observer and
    leaves [videoUrlRef] alone. *)
Definition quietUnlessReturns {A X} (obs : Page.Effect -> option X) (m : Page.Run A) : Prop :=
  forall s, (forall a, fst (m s) <> Returns a) ->
    Page.videoUrlRef (snd (m s)) = Page.videoUrlRef s
    /\ exists new, Page.trace (snd (m s)) = Page.trace s ++ new /\ omap obs new = [].

(** The lines [wrapHeadlineText] draws for [text] on a surface that
    measures with [measure]: none for a text that is empty once
    normalized, otherwise the bounded greedy lines. *)
Definition linesDrawn (measure : jsstring -> Q) (maxWidth maxLines : Q) (text : jsstring)
  : list jsstring :=
  if Page.isEmpty (Page.normalize text) then []
  else Page.boundedLinesOf measure maxWidth
         (Page.greedyLines measure maxWidth (Page.normalize text)) maxLines.

(** The fonts [createFrame] sets for the title and for the description. *)
Definition TITLE_FONT : jsstring := js "400 34px " ++ Page.HEADLINE_FONTS.
Definition DESCRIPTION_FONT : jsstring := js "300 28px " ++ Page.HEADLINE_FONTS.

(** What a run hands to the encoder, in the order of the trace: the
    files it writes and the commands it starts. *)
Definition stagingOf (e : Page.Effect) : option Page.Effect :=
  match e with
  | Page.WriteFile _ _ | Page.Exec _ => Some e
  | _ => None
  end.

(** The writing of a frame. *)
Definition writeOf (frame : Page.Frame) : Page.Effect :=
  Page.WriteFile (Page.name frame) (Page.data frame).

(** The result of a call that returned. *)
Definition returned {A} (o : Outcome A) : option A :=
  match o with Returns a => Some a | _ => None end.

(** A field [sanitizeText] can be called on without throwing: a string,
    or a value that is falsy. *)
Definition sanitizable (value : option Route.TagValue) : bool :=
  Route.falsy value || match value with Some (Route.TagString _) => true | _ => false end.

(** The string in a field, if it holds one. *)
Definition textOf (value : option Route.TagValue) : option jsstring :=
  match value with Some (Route.TagString s) => Some s | _ => None end.

(** An item whose title and description are both such fields. *)
Definition convertible (it : Route.RssItem) : bool :=
  sanitizable (Route.title it) && sanitizable (Route.description it).

(** The headline of an item whose title and description are strings or
    falsy. *)
Definition headlineOf (it : Route.RssItem) : Route.HeadlineJson :=
  Route.mkHeadlineJson
    (orElse (Route.sanitizeText (textOf (Route.title it))) Route.UNKNOWN_TITLE)
    (Route.nullish (Route.link it) (Route.TagString []))
    (Route.nullish (Route.pubDate it) (Route.TagString []))
    (Route.sanitizeText (textOf (Route.description it))).

(** The answer of the [catch] clause. *)
Definition UNEXPECTED : Route.JsonResponse :=
  Route.mkJsonResponse (Route.ErrorBody (js "Unexpected error while fetching headlines")) 500.

(** A headline of the route as the page declares it (lines 7-12 of
    [page.tsx]): [link] and [publishedAt] are strings. *)
Definition typedHeadline (h : Route.HeadlineJson) : option Headline :=
  match Route.json_link h, Route.json_publishedAt h with
  | Route.TagString l, Route.TagString p =>
      Some (mkHeadline (Route.json_title h) l p (Route.json_description h))
  | _, _ => None
  end.

(** A computation all of whose progress updates satisfy [P]. *)
Definition progressAll {A} (P : Z -> Prop) (m : Page.Run A) : Prop :=
  forall s, exists new,
    Page.trace (snd (m s)) = Page.trace s ++ new /\ Forall P (Page.progressUpdates new).

(** ** Sample collaborators

    A surface on which every code unit is 10 wide, a clock that parses
    what starts with a digit, and a feed with two items. *)

Definition sampleRuntime : Page.Runtime :=
  Page.mkRuntime
    (fun s => match s with
              | c :: _ => if (48 <=? c) && (c <=? 57) then Some 0%Z else None
              | [] => None
              end)
    (fun _ => js "1 January 1970")
    (fun _ s => inject_Z (10 * Z.of_nat (length s)))
    (fun drawing => [N.of_nat (length drawing)])
    (fun s => s).

(** A surface that measures three-word texts as narrower than shorter
    ones. *)
Definition shrinkingRuntime : Page.Runtime :=
  Page.mkRuntime (fun _ => None) (fun _ => [])
    (fun _ s => if (4 <? length s)%nat then 0%Q else 100%Q)
    (fun _ => []) (fun s => s).

Definition sampleHeadlines : list Headline :=
  [mkHeadline (js "A") [] [] []; mkHeadline (js "B") [] [] []].

(** A feed of two items titled A and B, without descriptions. *)
Definition twoItemChannel : Route.Channel :=
  Route.mkChannel
    (Route.ItemArray
       [Route.mkRssItem (Some (Route.TagString (js "A"))) None None None;
        Route.mkRssItem (Some (Route.TagString (js "B"))) None None None]).

Definition feedOf (parsed : Route.Parsed) : Route.Upstream :=
  Route.mkUpstream
    (Returns (Route.mkUpstreamResponse true (Returns (js "<rss>...</rss>"))))
    (fun _ => Returns parsed).

Definition twoItemFeed : Route.Upstream :=
  feedOf (Route.mkParsed (Some (Route.mkRss (Some twoItemChannel)))).

(** What the parser makes of a feed whose only item is
    [<item><title>2024</title></item>]: the title is a number. *)
Definition numericTitleItem : Route.RssItem :=
  Route.mkRssItem (Some (Route.TagNumber 2024)) None None None.

Definition numericTitleParsed : Route.Parsed :=
  Route.mkParsed (Some (Route.mkRss (Some (Route.mkChannel (Route.ItemSingle numericTitleItem))))).

Definition numericTitleFeed : Route.Upstream := feedOf numericTitleParsed.

(** Seven items, titled by one letter each; the fourth has the number 0
    as description and the last is titled by a number. *)
Definition sevenItems : list Route.RssItem :=
  [Route.mkRssItem (Some (Route.TagString [97])) None None None;
   Route.mkRssItem (Some (Route.TagString [98])) None None None;
   Route.mkRssItem (Some (Route.TagString [99])) None None None;
   Route.mkRssItem (Some (Route.TagString [100])) None None (Some (Route.TagNumber 0));
   Route.mkRssItem (Some (Route.TagString [101])) None None None;
   Route.mkRssItem (Some (Route.TagString [102])) None None None;
   Route.mkRssItem (Some (Route.TagNumber 7)) None None None].

(** A first run in which every collaborator succeeds; the frame promises
    settle in reverse order and the encoder reports 10%, an event without
    number, then 100%. *)
Definition sampleWorld : Page.World :=
  Page.mkWorld
    (Returns (Page.mkHeadlinesResponse true
                (Returns (Page.mkPayload (Some sampleHeadlines) None))))
    (Returns tt)
    (Throws OtherValue)
    (fun _ => Returns tt)
    (fun _ => true)
    [1; 0]%nat
    (fun _ => Returns tt)
    [Some (1 # 10); None; Some 1%Q]
    (Returns tt)
    (Returns (Page.Uint8Array [0; 0; 0; 32]))
    (js "blob:video").

(** The sample run with an encoder that reports no number. *)
Definition silentEncoderWorld : Page.World :=
  Page.mkWorld
    (Returns (Page.mkHeadlinesResponse true
                (Returns (Page.mkPayload (Some sampleHeadlines) None))))
    (Returns tt) (Throws OtherValue) (fun _ => Returns tt) (fun _ => true) [1; 0]%nat
    (fun _ => Returns tt) [None; None] (Returns tt)
    (Returns (Page.Uint8Array [0; 0; 0; 32])) (js "blob:video").

(** The route answers 502 as it does when the feed cannot be fetched. *)
Definition badGatewayWorld : Page.World :=
  Page.mkWorld
    (Returns (Page.mkHeadlinesResponse false
                (Returns (Page.mkPayload None (Some (js "Failed to fetch headlines"))))))
    (Returns tt) (Throws OtherValue) (fun _ => Returns tt) (fun _ => true) []
    (fun _ => Returns tt) [] (Returns tt) (Returns (Page.Uint8Array [])) (js "blob:video").

(** A second run: the encoder lists what the first run left and a
    directory; deleting the video fails. *)
Definition secondRunWorld : Page.World :=
  Page.mkWorld
    (Returns (Page.mkHeadlinesResponse true
                (Returns (Page.mkPayload (Some sampleHeadlines) None))))
    (Returns tt)
    (Returns [Page.mkFSNode (js "tmp") true; Page.mkFSNode (js "frame000.png") false;
              Page.mkFSNode (js "notes.txt") false; Page.mkFSNode (js "output.mp4") false])
    (fun path => if bool_decide (path = js "output.mp4") then Throws OtherValue else Returns tt)
    (fun _ => true) [0; 1]%nat
    (fun _ => Returns tt) [Some (1 # 2)] (Returns tt)
    (Returns (Page.Uint8Array [0; 0; 0; 32])) (js "blob:second").

(** The same, but the route answers with an empty list. *)
Definition emptyFeedWorld : Page.World :=
  Page.mkWorld
    (Returns (Page.mkHeadlinesResponse true (Returns (Page.mkPayload (Some []) None))))
    (Returns tt) (Throws OtherValue) (fun _ => Returns tt) (fun _ => true) []
    (fun _ => Returns tt) [] (Returns tt) (Returns (Page.Uint8Array [])) (js "blob:video").

(** * Properties *)

(** ** Scanning and trimming *)

Lemma list_length_ind {A} (P : list A -> Prop) :
  (forall l, (forall l', (length l' < length l)%nat -> P l') -> P l) ->
  forall l, P l.
Proof.
  intros step l. remember (length l) as n eqn:Hn.
  revert l Hn. induction n as [n IH] using lt_wf_ind.
  intros l ->. apply step. intros l' Hl'. eapply IH; [exact Hl'|reflexivity].
Qed.

Lemma replaceAll_cons m b c rest :
  replaceAll m b (c :: rest) =
  match m (c :: rest) with
  | Some (S k) => b ++ replaceAll m b (drop k rest)
  | _ => c :: replaceAll m b rest
  end.
Proof.
  simp replaceAll. destruct (m (c :: rest)) as [[|k]|]; reflexivity.
Qed.

Lemma noMatch_drop m k s : noMatch m s -> noMatch m (drop k s).
Proof.
  revert s. induction k as [|k IH]; intros [|c r]; simpl; auto.
  intros [_ H]. apply IH, H.
Qed.

Lemma noMatch_lookup m s :
  noMatch m s <-> forall i, (i < length s)%nat -> m (drop i s) = None.
Proof.
  induction s as [|c r IH]; simpl.
  - split; [intros _ i Hi; lia|auto].
  - rewrite IH. split.
    + intros [H0 H] [|i] Hi; simpl; [exact H0|apply H; lia].
    + intros H. split; [apply (H 0%nat); lia|].
      intros i Hi. apply (H (S i)). lia.
Qed.

Lemma replaceAll_noMatch m b s : noMatch m s -> replaceAll m b s = s.
Proof.
  induction s as [|c r IH]; [reflexivity|].
  intros [H0 H]. rewrite replaceAll_cons, H0, IH by exact H. reflexivity.
Qed.

Lemma dropWhile_length {A} (p : A -> bool) l :
  (length (dropWhile p l) <= length l)%nat.
Proof. induction l as [|x r IH]; simpl; [lia|]. destruct (p x); simpl; lia. Qed.

Lemma dropWhile_idem {A} (p : A -> bool) l :
  dropWhile p (dropWhile p l) = dropWhile p l.
Proof.
  induction l as [|x r IH]; simpl; [reflexivity|].
  destruct (p x) eqn:E; [exact IH|]. simpl. rewrite E. reflexivity.
Qed.

Lemma dropWhile_suffix {A} (p : A -> bool) l :
  exists k, dropWhile p l = drop k l.
Proof.
  induction l as [|x r [k IH]]; simpl; [exists 0%nat; reflexivity|].
  destruct (p x); [exists (S k); exact IH|exists 0%nat; reflexivity].
Qed.

Lemma dropWhile_head {A} (p : A -> bool) l x r :
  dropWhile p l = x :: r -> p x = false.
Proof.
  induction l as [|y l IH]; simpl; [discriminate|].
  destruct (p y) eqn:E; [exact IH|]. intros [= <- _]. exact E.
Qed.

Lemma dropWhile_app_keep {A} (p : A -> bool) l x t :
  p x = false -> dropWhile p (l ++ x :: t) = dropWhile p l ++ x :: t.
Proof.
  intros Hx. induction l as [|y l IH]; simpl; [rewrite Hx; reflexivity|].
  destruct (p y); [exact IH|reflexivity].
Qed.

Lemma take_drop_while {A} (p : A -> bool) l :
  drop (length (takeWhile p l)) l = dropWhile p l.
Proof.
  induction l as [|x r IH]; simpl; [reflexivity|].
  destruct (p x); simpl; [exact IH|reflexivity].
Qed.

(** [trimEnd] keeps a prefix, [trimStart] a suffix. *)
Lemma trimEnd_prefix s : exists t, s = trimEnd s ++ t.
Proof.
  unfold trimEnd. destruct (dropWhile_suffix isWhiteSpace (rev s)) as [k ->].
  exists (rev (take k (rev s))).
  rewrite <- rev_app_distr, take_drop, rev_involutive. reflexivity.
Qed.

Lemma trimStart_suffix s : exists k, trimStart s = drop k s.
Proof. apply dropWhile_suffix. Qed.

Lemma trimEnd_idem s : trimEnd (trimEnd s) = trimEnd s.
Proof. unfold trimEnd. rewrite rev_involutive, dropWhile_idem. reflexivity. Qed.

Lemma trimEnd_cons c r :
  isWhiteSpace c = false -> exists r', trimEnd (c :: r) = c :: r'.
Proof.
  intros Hc. unfold trimEnd. simpl rev.
  change (rev r ++ [c]) with (rev r ++ c :: []).
  rewrite dropWhile_app_keep by exact Hc.
  rewrite rev_app_distr. simpl. eauto.
Qed.

Lemma trim_head s c r : trim s = c :: r -> isWhiteSpace c = false.
Proof.
  unfold trim. destruct (trimStart s) as [|d t] eqn:E.
  - discriminate.
  - pose proof (dropWhile_head _ _ _ _ E) as Hd.
    destruct (trimEnd_cons d t Hd) as [r' ->]. intros [= <- _]. exact Hd.
Qed.

Lemma trim_idem s : trim (trim s) = trim s.
Proof.
  unfold trim at 1. destruct (trim s) as [|c r] eqn:E; [reflexivity|].
  pose proof (trim_head _ _ _ E) as Hc.
  unfold trimStart. simpl. rewrite Hc.
  rewrite <- E. unfold trim. apply trimEnd_idem.
Qed.

(** ** The two patterns of [sanitizeText] *)

Lemma indexOf_None c s : indexOf c s = None <-> Forall (fun x => x <> c) s.
Proof.
  induction s as [|x r IH]; simpl.
  - split; [constructor|reflexivity].
  - destruct (N.eqb_spec x c) as [->|Hne].
    + split; [discriminate|]. intros H. inversion H; congruence.
    + destruct (indexOf c r); simpl.
      * split; [discriminate|]. intros H. inversion H as [|? ? _ Hr].
        apply IH in Hr. discriminate.
      * split; [|reflexivity]. intros _. constructor; [exact Hne|apply IH; reflexivity].
Qed.

Lemma matchTag_not_lt c r : c <> LT -> matchTag (c :: r) = None.
Proof.
  intros Hc. destruct r as [|d r]; [reflexivity|]. simpl.
  destruct (N.eqb_spec c LT); [contradiction|reflexivity].
Qed.

Lemma matchTag_gt c r : matchTag (c :: GT :: r) = None.
Proof. simpl. rewrite andb_false_r. reflexivity. Qed.

Lemma matchTag_no_gt c r : Forall (fun x => x <> GT) r -> matchTag (c :: r) = None.
Proof.
  intros H. destruct r as [|d r]; [reflexivity|]. simpl.
  inversion H as [|? ? Hd Hr]. apply indexOf_None in Hr. rewrite Hr.
  destruct ((c =? LT) && negb (d =? GT)); reflexivity.
Qed.

Lemma matchTag_None_cases c r :
  matchTag (c :: r) = None ->
  c <> LT \/ r = [] \/ (exists r', r = GT :: r') \/ Forall (fun x => x <> GT) r.
Proof.
  destruct r as [|d r]; [auto|]. simpl.
  destruct (N.eqb_spec c LT) as [->|]; [|auto].
  destruct (N.eqb_spec d GT) as [->|Hd]; [eauto|]. simpl.
  destruct (indexOf GT r) eqn:E; [discriminate|].
  intros _. right; right; right. constructor; [exact Hd|apply indexOf_None, E].
Qed.

Lemma matchTag_prefix c a b : matchTag (c :: a ++ b) = None -> matchTag (c :: a) = None.
Proof.
  intros H. apply matchTag_None_cases in H.
  destruct H as [H|[H|[[r' H]|H]]].
  - apply matchTag_not_lt, H.
  - apply app_eq_nil in H as [-> _]. reflexivity.
  - destruct a as [|d a]; [reflexivity|]. simpl in H. injection H as -> _.
    apply matchTag_gt.
  - apply matchTag_no_gt. apply Forall_app in H. apply H.
Qed.

Lemma noMatch_tag_prefix a b : noMatch matchTag (a ++ b) -> noMatch matchTag a.
Proof.
  induction a as [|c a IH]; simpl; [auto|].
  intros [H0 H]. split; [eapply matchTag_prefix, H0|apply IH, H].
Qed.

Lemma noMatch_tag_trim s : noMatch matchTag s -> noMatch matchTag (trim s).
Proof.
  intros H. unfold trim.
  destruct (trimStart_suffix s) as [k Hk].
  destruct (trimEnd_prefix (trimStart s)) as [t Ht].
  apply (noMatch_tag_prefix _ t). rewrite <- Ht, Hk. apply noMatch_drop, H.
Qed.

(** Replacing matches by a space brings in no [>]. *)
Lemma replaceAll_no_gt m s :
  Forall (fun x => x <> GT) s -> Forall (fun x => x <> GT) (replaceAll m [SP] s).
Proof.
  induction s as [s IH] using list_length_ind. destruct s as [|c rest].
  - intros _. simp replaceAll. constructor.
  - intros H. rewrite replaceAll_cons. inversion H as [|? ? Hc Hr]; subst.
    destruct (m (c :: rest)) as [[|k]|].
    + constructor; [exact Hc|]. apply IH; [simpl; lia|exact Hr].
    + simpl. constructor; [discriminate|].
      apply IH; [simpl; rewrite length_drop; lia|apply Forall_drop, Hr].
    + constructor; [exact Hc|]. apply IH; [simpl; lia|exact Hr].
Qed.

(** After the tags are replaced, no tag is left. *)
Lemma stripTags_noMatch s : noMatch matchTag (replaceAll matchTag [SP] s).
Proof.
  induction s as [s IH] using list_length_ind. destruct s as [|c rest].
  - simp replaceAll. exact I.
  - rewrite replaceAll_cons. destruct (matchTag (c :: rest)) as [[|k]|] eqn:E.
    + destruct rest as [|d r]; [discriminate|]. simpl in E.
      destruct ((c =? LT) && negb (d =? GT)); [|discriminate].
      destruct (indexOf GT r); [|discriminate]. injection E. lia.
    + cbn [app]. split.
      * apply matchTag_not_lt. discriminate.
      * apply IH. simpl. rewrite length_drop. lia.
    + split; [|apply IH; simpl; lia].
      apply matchTag_None_cases in E. destruct E as [H|[H|[[r' H]|H]]].
      * apply matchTag_not_lt, H.
      * subst rest. simp replaceAll. reflexivity.
      * subst rest. rewrite replaceAll_cons.
        rewrite (matchTag_not_lt GT r') by discriminate.
        apply matchTag_gt.
      * apply matchTag_no_gt, replaceAll_no_gt, H.
Qed.

(** Collapsing white space creates no tag. *)
Lemma collapse_keeps_noTag s :
  noMatch matchTag s -> noMatch matchTag (replaceAll matchSpaces [SP] s).
Proof.
  induction s as [s IH] using list_length_ind. destruct s as [|c rest].
  - intros _. simp replaceAll. exact I.
  - intros [H0 H]. rewrite replaceAll_cons.
    assert (Hkeep : noMatch matchTag (c :: replaceAll matchSpaces [SP] rest)).
    { split; [|apply IH; [simpl; lia|exact H]].
      apply matchTag_None_cases in H0. destruct H0 as [H0|[H0|[[r' H0]|H0]]].
      - apply matchTag_not_lt, H0.
      - subst rest. simp replaceAll. reflexivity.
      - subst rest. rewrite replaceAll_cons.
        assert (E : matchSpaces (GT :: r') = None) by reflexivity.
        rewrite E. apply matchTag_gt.
      - apply matchTag_no_gt, replaceAll_no_gt, H0. }
    destruct (matchSpaces (c :: rest)) as [[|k]|]; [exact Hkeep| |exact Hkeep].
    cbn [app]. split.
    + apply matchTag_not_lt. discriminate.
    + apply IH; [simpl; rewrite length_drop; lia|apply noMatch_drop, H].
Qed.

Lemma matchSpaces_cons c rest :
  matchSpaces (c :: rest) =
  if isWhiteSpace c then Some (S (length (takeWhile isWhiteSpace rest))) else None.
Proof. unfold matchSpaces. simpl. destruct (isWhiteSpace c); reflexivity. Qed.

Lemma collapse_cons c rest :
  replaceAll matchSpaces [SP] (c :: rest) =
  if isWhiteSpace c then SP :: replaceAll matchSpaces [SP] (dropWhile isWhiteSpace rest)
  else c :: replaceAll matchSpaces [SP] rest.
Proof.
  rewrite replaceAll_cons, matchSpaces_cons.
  destruct (isWhiteSpace c); [|reflexivity].
  rewrite take_drop_while. reflexivity.
Qed.

Lemma collapse_singleSpaced s : singleSpaced (replaceAll matchSpaces [SP] s).
Proof.
  induction s as [s IH] using list_length_ind. destruct s as [|c rest].
  - simp replaceAll. exact I.
  - rewrite collapse_cons. destruct (isWhiteSpace c) eqn:Hc.
    + split.
      * intros _. split; [reflexivity|].
        destruct (dropWhile isWhiteSpace rest) as [|d t] eqn:E.
        -- simp replaceAll. exact I.
        -- rewrite collapse_cons, (dropWhile_head _ _ _ _ E).
           eapply dropWhile_head, E.
      * apply IH. simpl. pose proof (dropWhile_length isWhiteSpace rest). lia.
    + split; [congruence|]. apply IH. simpl. lia.
Qed.

Lemma singleSpaced_drop k s : singleSpaced s -> singleSpaced (drop k s).
Proof.
  revert s. induction k as [|k IH]; intros [|c r]; simpl; auto.
  intros [_ H]. apply IH, H.
Qed.

Lemma singleSpaced_prefix a b : singleSpaced (a ++ b) -> singleSpaced a.
Proof.
  induction a as [|c a IH]; simpl; [auto|].
  intros [H0 H]. split; [|apply IH, H].
  intros Hc. destruct (H0 Hc) as [-> Hd]. split; [reflexivity|].
  destruct a; [exact I|exact Hd].
Qed.

Lemma singleSpaced_trim s : singleSpaced s -> singleSpaced (trim s).
Proof.
  intros H. unfold trim.
  destruct (trimStart_suffix s) as [k Hk].
  destruct (trimEnd_prefix (trimStart s)) as [t Ht].
  apply (singleSpaced_prefix _ t). rewrite <- Ht, Hk. apply singleSpaced_drop, H.
Qed.

Lemma collapse_fixed s : singleSpaced s -> replaceAll matchSpaces [SP] s = s.
Proof.
  induction s as [|c r IH]; [reflexivity|].
  intros [H0 H]. rewrite collapse_cons. destruct (isWhiteSpace c) eqn:Hc.
  - destruct (H0 eq_refl) as [-> Hd]. destruct r as [|d r].
    + simpl. simp replaceAll. reflexivity.
    + simpl dropWhile. rewrite Hd, IH by exact H. reflexivity.
  - rewrite IH by exact H. reflexivity.
Qed.

Lemma singleSpaced_lookup s i c d :
  singleSpaced s -> s !! i = Some c -> s !! S i = Some d ->
  isWhiteSpace c = true -> isWhiteSpace d = false.
Proof.
  revert s. induction i as [|i IH]; intros [|x [|y r]]; simpl; try discriminate.
  - intros [H0 _] [= ->] [= ->] Hc. apply H0, Hc.
  - intros [_ H]. apply (IH (y :: r)), H.
Qed.

(** ** sanitizeText *)

Lemma sanitize_pipeline_props v :
  let out := trim (replaceAll matchSpaces [SP] (replaceAll matchTag [SP] v)) in
  noMatch matchTag out /\ singleSpaced out /\ trim out = out.
Proof.
  cbv zeta. split; [|split].
  - apply noMatch_tag_trim, collapse_keeps_noTag, stripTags_noMatch.
  - apply singleSpaced_trim, collapse_singleSpaced.
  - apply trim_idem.
Qed.

Lemma sanitizeText_props value :
  let out := Route.sanitizeText value in
  noMatch matchTag out /\ singleSpaced out /\ trim out = out.
Proof.
  destruct value as [[|c v]|]; cbv zeta.
  - repeat split.
  - apply sanitize_pipeline_props.
  - repeat split.
Qed.

(** C10. [sanitizeText] is idempotent, and every string it returns is
    trimmed, has no two white-space code units in a row, and has no match
    of the tag pattern starting at any position. *)
Theorem sanitizeText_idempotent (value : option jsstring) :
  let out := Route.sanitizeText value in
  Route.sanitizeText (Some out) = out
  /\ trim out = out
  /\ (forall i c d, out !! i = Some c -> out !! S i = Some d ->
        isWhiteSpace c = true -> isWhiteSpace d = false)
  /\ (forall i, matchTag (drop i out) = None).
Proof.
  cbv zeta. destruct (sanitizeText_props value) as (Htag & Hsp & Htrim).
  split; [|split; [exact Htrim|split]].
  - destruct (Route.sanitizeText value) as [|c out] eqn:E; [reflexivity|].
    unfold Route.sanitizeText at 1.
    rewrite (replaceAll_noMatch matchTag) by exact Htag.
    rewrite collapse_fixed by exact Hsp. exact Htrim.
  - intros i c d. apply singleSpaced_lookup, Hsp.
  - intros i. destruct (decide (i < length (Route.sanitizeText value))%nat) as [Hi|Hi].
    + apply noMatch_lookup; assumption.
    + rewrite drop_ge by lia. reflexivity.
Qed.

(** ** The route handler *)

Section RouteProperties.
Import Route.

Lemma sanitizeTextOf_returns value :
  sanitizable value = true -> sanitizeTextOf value = Returns (sanitizeText (textOf value)).
Proof.
  destruct value as [[[|c s]|n|[|]|]|]; unfold sanitizable, sanitizeTextOf; cbn [falsy negb orb textOf];
    try reflexivity; try discriminate.
  destruct (Qeq_bool n 0); [reflexivity|discriminate].
Qed.

Lemma sanitizeTextOf_throws value :
  sanitizable value = false -> sanitizeTextOf value = Throws (ErrorObject NOT_A_FUNCTION).
Proof.
  destruct value as [[[|c s]|n|[|]|]|]; unfold sanitizable, sanitizeTextOf; cbn [falsy negb orb];
    try reflexivity; try discriminate.
  destruct (Qeq_bool n 0); [discriminate|reflexivity].
Qed.

Lemma toHeadline_returns it : convertible it = true -> toHeadline it = Returns (headlineOf it).
Proof.
  unfold convertible. intros [Ht Hd]%andb_true_iff. unfold toHeadline.
  rewrite (sanitizeTextOf_returns _ Ht), (sanitizeTextOf_returns _ Hd). reflexivity.
Qed.

Lemma toHeadline_throws it :
  convertible it = false -> toHeadline it = Throws (ErrorObject NOT_A_FUNCTION).
Proof.
  unfold convertible. intros H. unfold toHeadline.
  destruct (sanitizable (title it)) eqn:Ht.
  - rewrite (sanitizeTextOf_returns _ Ht). simpl in H.
    rewrite (sanitizeTextOf_throws _ H). reflexivity.
  - rewrite (sanitizeTextOf_throws _ Ht). reflexivity.
Qed.

Lemma toHeadline_returned it h : toHeadline it = Returns h -> convertible it = true /\ h = headlineOf it.
Proof.
  destruct (convertible it) eqn:E.
  - rewrite (toHeadline_returns _ E). intros [= <-]. split; reflexivity.
  - rewrite (toHeadline_throws _ E). discriminate.
Qed.

Lemma mapM_cons {A B} (f : A -> Outcome B) x l :
  mapM f (x :: l) = (y ← f x; k ← mapM f l; mret (y :: k)).
Proof. reflexivity. Qed.

Lemma mapM_returns {A B} (f : A -> Outcome B) l k :
  mapM f l = Returns k <-> Forall2 (fun x y => f x = Returns y) l k.
Proof.
  revert k. induction l as [|x l IH]; intros k.
  - split; [intros [= <-]; constructor|]. intros H. inversion H. reflexivity.
  - rewrite mapM_cons. split.
    + destruct (f x) as [y| |] eqn:Ex; simpl; try discriminate.
      destruct (mapM f l) as [k'| |]; simpl; try discriminate.
      intros [= <-]. constructor; [exact Ex|]. apply IH. reflexivity.
    + intros H. inversion H as [|? y ? k' Hx Hl]; subst.
      rewrite Hx. simpl. apply IH in Hl. rewrite Hl. reflexivity.
Qed.



(** The mapping of lines 53-58 returns when the title and description of
    each of the first six items can be sanitized, and otherwise throws
    the [TypeError]; it never stays unsettled. *)
Lemma headlinesOf_cases items :
  if forallb convertible (take 6 items)
  then headlinesOf items = Returns (map headlineOf (take 6 items))
  else headlinesOf items = Throws (ErrorObject NOT_A_FUNCTION).
Proof.
  unfold headlinesOf. induction (take 6 items) as [|it l IH]; [reflexivity|].
  rewrite mapM_cons. cbn [forallb]. destruct (convertible it) eqn:E; cbn [andb].
  - rewrite (toHeadline_returns _ E). destruct (forallb convertible l); rewrite IH; reflexivity.
  - rewrite (toHeadline_throws _ E). reflexivity.
Qed.

Lemma GET_mapping w response xml parsed :
  fetch w = Returns response -> ok response = true ->
  text response = Returns xml -> parse w xml = Returns parsed ->
  GET w = if forallb convertible (take 6 (itemsOf parsed))
          then Returns (mkJsonResponse
                          (HeadlinesBody (map headlineOf (take 6 (itemsOf parsed)))) 200)
          else Returns UNEXPECTED.
Proof.
  intros Hf Hok Ht Hp. unfold GET, GET_try.
  rewrite Hf. simpl. rewrite Hok. simpl. rewrite Ht. simpl. rewrite Hp. simpl.
  pose proof (headlinesOf_cases (itemsOf parsed)) as H.
  destruct (forallb convertible (take 6 (itemsOf parsed))); rewrite H; reflexivity.
Qed.


(** C6. The headlines that are returned are the first
    [min (length items) 6] items, converted one by one, in feed order. *)
Theorem headlines_first_six (items : list RssItem) (hs : list HeadlineJson) :
  headlinesOf items = Returns hs ->
  length hs = Nat.min (length items) 6
  /\ (length hs <= 6)%nat
  /\ Forall2 (fun it h => toHeadline it = Returns h) (take 6 items) hs
  /\ (forall i, hs !! i
        = if decide (i < 6)%nat then items !! i ≫= (fun it => returned (toHeadline it))
          else None).
Proof.
  unfold headlinesOf. intros H%mapM_returns.
  assert (Hlen : length hs = Nat.min (length items) 6).
  { rewrite <- (Forall2_length _ _ _ H), length_take. lia. }
  split; [exact Hlen|]. split; [lia|]. split; [exact H|].
  intros i. destruct (decide (i < 6)%nat) as [Hi|Hi].
  - rewrite <- (lookup_take_lt items 6 i) by exact Hi.
    destruct (take 6 items !! i) as [it|] eqn:E; cbn [mbind option_bind].
    + destruct (Forall2_lookup_l _ _ _ _ _ H E) as (h & Hh & Hit).
      rewrite Hh, Hit. reflexivity.
    + apply lookup_ge_None. apply lookup_ge_None in E.
      rewrite <- (Forall2_length _ _ _ H). exact E.
  - apply lookup_ge_None. lia.
Qed.


End RouteProperties.



Lemma headlines_first_six_witness :
  length (map headlineOf (take 6 sevenItems)) = 6%nat
  /\ map headlineOf (take 6 sevenItems) !! 5%nat
     = Some (Route.mkHeadlineJson [102] (Route.TagString []) (Route.TagString []) [])
  /\ map headlineOf (take 6 sevenItems) !! 6%nat = None.
Proof.
  destruct (headlines_first_six sevenItems (map headlineOf (take 6 sevenItems)))
    as (Hlen & _ & _ & Hlookup); [vm_compute; reflexivity|].
  split; [exact Hlen|]. split; [rewrite Hlookup; reflexivity|rewrite Hlookup; reflexivity].
Defined.



(** ** The page: dates *)

Section PageProperties.
Import Page.

Lemma formatToHindiDate_returns rt value : exists s, formatToHindiDate rt value = Returns s.
Proof.
  unfold formatToHindiDate. destruct value as [|c v]; [eauto|].
  destruct (dateParse rt (c :: v)) as [t|] eqn:E.
  - rewrite bool_decide_eq_false_2 by discriminate. simpl. eauto.
  - rewrite bool_decide_eq_true_2 by reflexivity. eauto.
Qed.

(** C7. [formatToHindiDate] always returns: the placeholder when the input
    is empty or is not a date, and otherwise the text of the formatter,
    which is not empty when the formatter gives no empty text. *)
Theorem formatToHindiDate_total (rt : Runtime) (value : jsstring) :
  (exists s, formatToHindiDate rt value = Returns s)
  /\ (value = [] \/ dateParse rt value = None ->
      formatToHindiDate rt value = Returns TIME_UNAVAILABLE)
  /\ (forall t, dateParse rt value = Some t -> dateTimeFormat rt t <> [] ->
      exists s, formatToHindiDate rt value = Returns s /\ s <> []
                /\ (value <> [] -> s = dateTimeFormat rt t)).
Proof.
  split; [apply formatToHindiDate_returns|].
  unfold formatToHindiDate. destruct value as [|c v].
  - split; [reflexivity|].
    intros t _ _. exists TIME_UNAVAILABLE. repeat split; [discriminate|congruence].
  - destruct (dateParse rt (c :: v)) as [t|] eqn:E.
    + rewrite bool_decide_eq_false_2 by discriminate. simpl.
      split; [intros [?|?]; discriminate|].
      intros t' [= <-] Hne. eauto.
    + rewrite bool_decide_eq_true_2 by reflexivity.
      split; [reflexivity|]. intros t' [=].
Qed.

End PageProperties.

Lemma formatToHindiDate_total_witness :
  Page.formatToHindiDate sampleRuntime (js "oops") = Returns Page.TIME_UNAVAILABLE
  /\ exists s, Page.formatToHindiDate sampleRuntime (js "1970-01-01T00:00:00Z") = Returns s
               /\ s <> [].
Proof.
  split.
  - apply (proj1 (proj2 (formatToHindiDate_total sampleRuntime (js "oops")))).
    right. reflexivity.
  - destruct (proj2 (proj2 (formatToHindiDate_total sampleRuntime
                              (js "1970-01-01T00:00:00Z"))) 0%Z)
      as (s & Hs & Hne & _); [reflexivity|discriminate|].
    exists s. split; assumption.
Defined.

(** ** The page: wrapping *)

Section WrapProperties.
Import Page.

Lemma fillTexts_app a b : fillTexts (a ++ b) = fillTexts a ++ fillTexts b.
Proof. apply omap_app. Qed.

Lemma draw_lines_texts (x lineHeight : Q) (lines : list jsstring) (ctx : Ctx) (y : Q) :
  fillTexts (ops (fst (fold_left
    (fun '(ctx, currentY) entry => (fillText entry x currentY ctx, (currentY + lineHeight)%Q))
    lines (ctx, y)))) = fillTexts (ops ctx) ++ lines.
Proof.
  revert ctx y. induction lines as [|l lines IH]; intros ctx y; simpl.
  - rewrite app_nil_r. reflexivity.
  - rewrite IH. simpl. rewrite fillTexts_app, <- app_assoc. reflexivity.
Qed.

(** What a call draws: the bounded lines of the normalized text, or
    nothing when that text is empty. *)
Lemma wrapHeadlineText_draws rt ctx text x y maxWidth lineHeight maxLines :
  fillTexts (ops (fst (wrapHeadlineText rt ctx text x y maxWidth lineHeight maxLines))) =
  fillTexts (ops ctx) ++
  (if isEmpty (normalize text) then []
   else let measure := measureText rt (font ctx) in
        boundedLinesOf measure maxWidth
          (greedyLines measure maxWidth (normalize text)) (default (6 : Q) maxLines)).
Proof.
  unfold wrapHeadlineText. destruct (isEmpty (normalize text)).
  - simpl. rewrite app_nil_r. reflexivity.
  - cbv zeta. apply draw_lines_texts.
Qed.

Lemma split_tailOf s :
  exists w ws, split SP s = w :: ws /\ s = w ++ tailOf ws.
Proof.
  induction s as [|c r (w & ws & Hs & Hr)]; simpl.
  - exists [], []. split; reflexivity.
  - destruct (N.eqb_spec c SP) as [->|Hc].
    + exists [], (w :: ws). rewrite Hs. split; [reflexivity|].
      unfold tailOf. simpl. rewrite Hr at 1. reflexivity.
    + rewrite Hs. exists (c :: w), ws. split; [reflexivity|]. simpl. congruence.
Qed.

Lemma split_head c r :
  c <> SP -> exists w ws, split SP (c :: r) = (c :: w) :: ws /\ r = w ++ tailOf ws.
Proof.
  intros Hc. destruct (split_tailOf r) as (w & ws & Hs & Hr). simpl.
  destruct (N.eqb_spec c SP) as [|_]; [contradiction|].
  rewrite Hs. eauto.
Qed.

Lemma tailOf_boundary ws : atWordBoundary (tailOf ws).
Proof. destruct ws as [|w ws]; [left; reflexivity|right; unfold tailOf; simpl; eauto]. Qed.

Lemma tooWide_false measure maxWidth s :
  (measure s <= maxWidth)%Q -> tooWide measure maxWidth s = false.
Proof.
  intros H. unfold tooWide. destruct (Qlt_le_dec maxWidth (measure s)) as [Hlt|_]; [|reflexivity].
  exfalso. apply (Qlt_not_le _ _ Hlt), H.
Qed.

Lemma tooWide_true measure maxWidth s :
  tooWide measure maxWidth s = true -> (maxWidth < measure s)%Q.
Proof. unfold tooWide. destruct (Qlt_le_dec maxWidth (measure s)); [auto|discriminate]. Qed.

Lemma tooWide_fits measure maxWidth s :
  tooWide measure maxWidth s = false -> (measure s <= maxWidth)%Q.
Proof. unfold tooWide. destruct (Qlt_le_dec maxWidth (measure s)); [discriminate|auto]. Qed.

Lemma wrapStep_fits measure maxWidth lines line w :
  line <> [] -> (measure (line ++ [SP] ++ w) <= maxWidth)%Q ->
  wrapStep measure maxWidth (lines, line) w = (lines, line ++ [SP] ++ w).
Proof.
  intros Hne Hfit. unfold wrapStep.
  destruct line as [|c l]; [contradiction|]. cbn [isEmpty].
  rewrite tooWide_false by exact Hfit. reflexivity.
Qed.

(** While every candidate line fits, the loop only extends the line. *)
Lemma wrap_loop_fits measure maxWidth ws lines line :
  line <> [] ->
  (forall pre suf, line ++ tailOf ws = pre ++ suf -> atWordBoundary suf ->
     (measure pre <= maxWidth)%Q) ->
  fold_left (wrapStep measure maxWidth) ws (lines, line) = (lines, line ++ tailOf ws).
Proof.
  revert line. induction ws as [|w ws IH]; intros line Hne Hfit.
  - unfold tailOf. simpl. rewrite app_nil_r. reflexivity.
  - assert (Heq : line ++ tailOf (w :: ws) = (line ++ [SP] ++ w) ++ tailOf ws).
    { unfold tailOf. simpl. rewrite <- app_assoc. reflexivity. }
    change (fold_left (wrapStep measure maxWidth) (w :: ws) (lines, line))
      with (fold_left (wrapStep measure maxWidth) ws
              (wrapStep measure maxWidth (lines, line) w)).
    rewrite wrapStep_fits.
    + rewrite IH.
      * rewrite Heq. reflexivity.
      * destruct line; [contradiction|discriminate].
      * intros pre suf E. apply Hfit. rewrite Heq. exact E.
    + exact Hne.
    + apply (Hfit _ (tailOf ws) Heq), tailOf_boundary.
Qed.

Lemma greedyLines_fits measure maxWidth s :
  trim s = s -> s <> [] ->
  (forall pre suf, s = pre ++ suf -> atWordBoundary suf -> (measure pre <= maxWidth)%Q) ->
  greedyLines measure maxWidth s = [s].
Proof.
  intros Htrim Hne Hfit. destruct s as [|c r]; [contradiction|].
  assert (Hc : c <> SP).
  { intros ->. pose proof (trim_head _ _ _ Htrim) as H. discriminate. }
  destruct (split_head c r Hc) as (w & ws & Hs & Hr).
  unfold greedyLines. rewrite Hs. simpl fold_left.
  rewrite andb_false_r.
  rewrite wrap_loop_fits.
  - simpl. rewrite <- Hr. reflexivity.
  - discriminate.
  - intros pre suf E. apply Hfit. simpl in E. rewrite <- Hr in E. exact E.
Qed.

Lemma normalize_trimmed text : trim (normalize text) = normalize text.
Proof. apply trim_idem. Qed.

End WrapProperties.

Section WrapBounds.
Import Page.

Lemma boundedLinesOf_within measure maxWidth lines maxLines :
  (length lines <= 1)%nat -> boundedLinesOf measure maxWidth lines maxLines = lines.
Proof.
  intros Hlen. unfold boundedLinesOf.
  assert (Hlimit : (1 <= Z.max 1 (Qfloor maxLines))%Z) by lia.
  destruct (Z.ltb_spec (Z.max 1 (Qfloor maxLines)) (Z.of_nat (length lines))) as [H|_]; [lia|].
  apply take_ge. lia.
Qed.

Lemma wrap_one_line rt ctx text x y maxWidth lineHeight maxLines :
  normalize text <> [] ->
  (forall pre suf, normalize text = pre ++ suf -> atWordBoundary suf ->
     (measureText rt (font ctx) pre <= maxWidth)%Q) ->
  fillTexts (ops (fst (wrapHeadlineText rt ctx text x y maxWidth lineHeight maxLines)))
  = fillTexts (ops ctx) ++ [normalize text].
Proof.
  intros Hne Hfit. rewrite wrapHeadlineText_draws.
  destruct (normalize text) as [|c r] eqn:E; [contradiction|]. cbn [isEmpty]. cbv zeta.
  rewrite <- E in *. rewrite greedyLines_fits.
  - rewrite boundedLinesOf_within by (simpl; lia). reflexivity.
  - apply normalize_trimmed.
  - exact Hne.
  - exact Hfit.
Qed.

(** C3 (amended). A text whose normalized form is not empty and fits the
    width at its end and at every word boundary is drawn as one line, the
    normalized text itself. *)
Theorem wrap_fitting_text rt ctx text x y maxWidth lineHeight maxLines :
  normalize text <> [] ->
  (forall pre suf, normalize text = pre ++ suf -> atWordBoundary suf ->
     (measureText rt (font ctx) pre <= maxWidth)%Q) ->
  fillTexts (ops (fst (wrapHeadlineText rt ctx text x y maxWidth lineHeight maxLines)))
  = fillTexts (ops ctx) ++ [normalize text].
Proof. apply wrap_one_line. Qed.

(** On a surface where appending never makes a text narrower, fitting as a
    whole is enough. *)
Corollary wrap_one_line_monotone rt ctx text x y maxWidth lineHeight maxLines :
  (forall a b, (measureText rt (font ctx) a <= measureText rt (font ctx) (a ++ b))%Q) ->
  normalize text <> [] ->
  (measureText rt (font ctx) (normalize text) <= maxWidth)%Q ->
  fillTexts (ops (fst (wrapHeadlineText rt ctx text x y maxWidth lineHeight maxLines)))
  = fillTexts (ops ctx) ++ [normalize text].
Proof.
  intros Hmono Hne Hfit. apply wrap_one_line; [exact Hne|].
  intros pre suf E _. eapply Qle_trans; [apply (Hmono pre suf)|].
  rewrite <- E. exact Hfit.
Qed.

Lemma shrinkToFit_cons measure maxWidth c r :
  shrinkToFit measure maxWidth (c :: r) =
  if tooWide measure maxWidth ((c :: r) ++ ELLIPSIS)
  then shrinkToFit measure maxWidth (sliceOffLast (c :: r))
  else c :: r.
Proof. simp shrinkToFit. destruct (tooWide _ _ _); reflexivity. Qed.

(** The loop ends on a prefix that fits with the ellipsis, or on the empty
    string. *)
Lemma shrinkToFit_spec measure maxWidth l :
  let t := shrinkToFit measure maxWidth l in
  ((measure (t ++ ELLIPSIS) <= maxWidth)%Q \/ t = []) /\ exists rest, l = t ++ rest.
Proof.
  cbv zeta. induction l as [l IH] using list_length_ind. destruct l as [|c r].
  - simp shrinkToFit. split; [right; reflexivity|exists []; reflexivity].
  - rewrite shrinkToFit_cons.
    destruct (tooWide measure maxWidth ((c :: r) ++ ELLIPSIS)) eqn:E.
    + destruct (IH (sliceOffLast (c :: r))) as [Hfit [rest Hrest]].
      { unfold sliceOffLast. rewrite length_take. simpl. lia. }
      split; [exact Hfit|].
      exists (rest ++ drop (length (c :: r) - 1) (c :: r)).
      rewrite app_assoc, <- Hrest. unfold sliceOffLast. rewrite take_drop. reflexivity.
    + split; [left; apply tooWide_fits, E|exists []; rewrite app_nil_r; reflexivity].
Qed.

Lemma greedyLines_nil measure maxWidth : greedyLines measure maxWidth [] = [].
Proof. unfold greedyLines. simpl. rewrite andb_false_r. reflexivity. Qed.

Lemma boundedLinesOf_overflow measure maxWidth lines (k : nat) :
  (1 <= k)%nat -> (k < length lines)%nat ->
  boundedLinesOf measure maxWidth lines (inject_Z (Z.of_nat k)) =
  <[(k - 1)%nat := shrinkToFit measure maxWidth (default [] (lines !! (k - 1)%nat))
                   ++ ELLIPSIS]> (take k lines).
Proof.
  intros Hk Hlen. unfold boundedLinesOf. rewrite Qfloor_Z.
  replace (Z.max 1 (Z.of_nat k)) with (Z.of_nat k) by lia.
  rewrite Nat2Z.id.
  destruct (Z.ltb_spec (Z.of_nat k) (Z.of_nat (length lines))) as [_|H]; [|lia].
  rewrite length_take. replace (k `min` length lines)%nat with k by lia.
  rewrite lookup_take_lt by lia. reflexivity.
Qed.

(** C2 (amended). When the greedy wrap gives one line more than a positive
    whole [maxLines], exactly [maxLines] lines are drawn; the last one is a
    prefix of the greedy line of that rank followed by the ellipsis, and it
    fits the width unless nothing but the ellipsis is left of it. *)
Theorem wrap_overflow_by_one rt ctx text x y maxWidth lineHeight (k : nat) :
  let measure := measureText rt (font ctx) in
  let lines := greedyLines measure maxWidth (normalize text) in
  (1 <= k)%nat -> length lines = S k ->
  exists drawn t rest,
    fillTexts (ops (fst (wrapHeadlineText rt ctx text x y maxWidth lineHeight
                           (Some (inject_Z (Z.of_nat k))))))
    = fillTexts (ops ctx) ++ drawn
    /\ length drawn = k
    /\ take (k - 1) drawn = take (k - 1) lines
    /\ lines !! (k - 1)%nat = Some (t ++ rest)
    /\ last drawn = Some (t ++ ELLIPSIS)
    /\ ((measure (t ++ ELLIPSIS) <= maxWidth)%Q \/ t = []).
Proof.
  cbv zeta. intros Hk Hlen.
  set (measure := measureText rt (font ctx)) in *.
  set (lines := greedyLines measure maxWidth (normalize text)) in *.
  assert (Hne : isEmpty (normalize text) = false).
  { destruct (normalize text) eqn:E; [|reflexivity].
    subst lines. rewrite greedyLines_nil in Hlen. discriminate. }
  rewrite wrapHeadlineText_draws, Hne. cbv zeta. fold measure. fold lines.
  change (default (6 : Q) (Some (inject_Z (Z.of_nat k)))) with (inject_Z (Z.of_nat k)).
  rewrite boundedLinesOf_overflow by lia.
  assert (Htake : length (take k lines) = k) by (rewrite length_take; lia).
  destruct (lookup_lt_is_Some_2 lines (k - 1)%nat) as [l Hl]; [lia|].
  rewrite Hl. change (default [] (Some l)) with l.
  destruct (shrinkToFit_spec measure maxWidth l) as [Hfit [rest Hrest]].
  exists (<[(k - 1)%nat := shrinkToFit measure maxWidth l ++ ELLIPSIS]> (take k lines)),
    (shrinkToFit measure maxWidth l), rest.
  split; [reflexivity|]. split; [rewrite length_insert; exact Htake|].
  split; [rewrite take_insert_ge by lia; rewrite take_take; f_equal; lia|].
  split; [rewrite <- Hrest; reflexivity|].
  split; [|exact Hfit].
  rewrite last_lookup, length_insert, Htake.
  replace (Init.Nat.pred k) with (k - 1)%nat by lia.
  apply list_lookup_insert_eq. lia.
Qed.

End WrapBounds.

Lemma wrap_fitting_text_witness :
  Page.fillTexts (Page.ops (fst (Page.wrapHeadlineText sampleRuntime Page.freshCtx
    (js "  Hello   world ") 0 0 200 10 (Some (3 : Q))))) = [js "Hello world"].
Proof.
  apply (wrap_fitting_text sampleRuntime Page.freshCtx (js "  Hello   world ")
           0 0 200 10 (Some (3 : Q))).
  - vm_compute. discriminate.
  - intros pre suf E _.
    assert (Hlen : length (Page.normalize (js "  Hello   world ")) = 11%nat) by reflexivity.
    rewrite E, length_app in Hlen.
    change (inject_Z (10 * Z.of_nat (length pre)) <= inject_Z 200)%Q.
    rewrite <- Zle_Qle. lia.
Defined.

(** C3 as stated fails on a text of white space only, which fits and is not
    drawn at all, and on a surface where a text can be narrower than its own
    beginning. *)
Lemma wrap_fitting_text_counterexample :
  ((Page.measureText sampleRuntime (Page.font Page.freshCtx) (Page.normalize (js "   "))
    <= 100)%Q
   /\ Page.fillTexts (Page.ops (fst (Page.wrapHeadlineText sampleRuntime Page.freshCtx
        (js "   ") 0 0 100 10 (Some (3 : Q))))) = [])
  /\ ((Page.measureText shrinkingRuntime (Page.font Page.freshCtx)
         (Page.normalize (js "a b c")) <= 50)%Q
      /\ Page.fillTexts (Page.ops (fst (Page.wrapHeadlineText shrinkingRuntime Page.freshCtx
           (js "a b c") 0 0 50 10 (Some (3 : Q))))) = [js "a"; js "b"; js "c"]).
Proof.
  split; split; try reflexivity; vm_compute; discriminate.
Qed.

Lemma wrap_overflow_by_one_witness :
  exists drawn,
    Page.fillTexts (Page.ops (fst (Page.wrapHeadlineText sampleRuntime Page.freshCtx
      (js "aa bb cc dd ee") 0 0 50 10 (Some (inject_Z (Z.of_nat 2)))))) = drawn
    /\ length drawn = 2%nat.
Proof.
  destruct (wrap_overflow_by_one sampleRuntime Page.freshCtx (js "aa bb cc dd ee")
              0 0 50 10 2) as (drawn & t & rest & Hd & Hlen & _).
  - lia.
  - reflexivity.
  - exists drawn. split; [exact Hd|exact Hlen].
Defined.

(** C2 as stated fails when the ellipsis alone is wider than the budget
    (the last line is then the ellipsis, too wide), and for [maxLines = 0],
    where one greedy line is one more than [maxLines] and is drawn whole. *)
Lemma wrap_overflow_by_one_counterexample :
  (length (Page.greedyLines (Page.measureText sampleRuntime (Page.font Page.freshCtx)) 5
             (Page.normalize (js "a b"))) = (1 + 1)%nat
   /\ Page.fillTexts (Page.ops (fst (Page.wrapHeadlineText sampleRuntime Page.freshCtx
        (js "a b") 0 0 5 10 (Some (1 : Q))))) = [js "…"]
   /\ (5 < Page.measureText sampleRuntime (Page.font Page.freshCtx) (js "…"))%Q)
  /\ (length (Page.greedyLines (Page.measureText sampleRuntime (Page.font Page.freshCtx)) 100
                (Page.normalize (js "a"))) = (0 + 1)%nat
      /\ Page.fillTexts (Page.ops (fst (Page.wrapHeadlineText sampleRuntime Page.freshCtx
           (js "a") 0 0 100 10 (Some (0 : Q))))) = [js "a"]).
Proof.
  repeat split; reflexivity.
Qed.

(** ** The page: frames *)

Section FrameProperties.
Import Page.

Lemma mapM_id_Some {A} (vs : list A) : mapM id (Some <$> vs) = Some vs.
Proof.
  apply mapM_Some. induction vs as [|v vs IH]; constructor; [reflexivity|exact IH].
Qed.

(** Whatever the order, once every promise has settled the values sit at
    the indices of their promises. *)
Lemma settleAll_covering {A} (vs : list A) (order : list nat) (values : list (option A)) :
  length values = length vs ->
  (forall i v, vs !! i = Some v -> values !! i = Some (Some v) \/ i ∈ order) ->
  settleAll order (Returns <$> vs) values = Returns vs.
Proof.
  revert values. induction order as [|i rest IH]; intros values Hlen Hcov; simpl.
  - assert (E : values = Some <$> vs).
    { apply list_eq. intros i. rewrite list_lookup_fmap.
      destruct (vs !! i) as [v|] eqn:Hv; simpl.
      - destruct (Hcov i v Hv) as [H|H]; [exact H|inversion H].
      - apply lookup_ge_None. apply lookup_ge_None in Hv. lia. }
    rewrite E, mapM_id_Some. reflexivity.
  - rewrite list_lookup_fmap. destruct (vs !! i) as [vi|] eqn:Hvi; simpl.
    + apply IH; [rewrite length_insert; exact Hlen|].
      intros j v Hv. destruct (decide (j = i)) as [->|Hne].
      * left. rewrite list_lookup_insert_eq.
        -- congruence.
        -- rewrite Hlen. eapply lookup_lt_Some, Hvi.
      * rewrite list_lookup_insert_ne by congruence.
        destruct (Hcov j v Hv) as [H|H]; [left; exact H|right].
        apply elem_of_cons in H as [H|H]; [contradiction|exact H].
    + apply IH; [exact Hlen|].
      intros j v Hv. destruct (Hcov j v Hv) as [H|H]; [left; exact H|right].
      apply elem_of_cons in H as [H|H]; [congruence|exact H].
Qed.

Lemma promiseAll_fulfilled {A} (vs : list A) (order : list nat) :
  order ≡ₚ seq 0 (length vs) ->
  promiseAll order (Returns <$> vs) = Returns vs.
Proof.
  intros Hperm. unfold promiseAll. apply settleAll_covering.
  - rewrite length_replicate, length_fmap. reflexivity.
  - intros i v Hv. right. rewrite Hperm. apply elem_of_seq.
    apply lookup_lt_Some in Hv. lia.
Qed.

Lemma createFrame_returns rt headline index total :
  exists bytes,
    createFrame rt true headline index total = Returns (mkFrame (frameName index) bytes).
Proof.
  unfold createFrame. cbn [negb].
  destruct (formatToHindiDate_returns rt (publishedAt headline)) as [s Hs].
  rewrite Hs. eexists. reflexivity.
Qed.

Lemma all_returned {A} (tasks : list (Outcome A)) :
  Forall (fun t => exists v, t = Returns v) tasks -> exists vs, tasks = Returns <$> vs.
Proof.
  induction 1 as [|t tasks [v ->] _ [vs ->]]; [exists []; reflexivity|].
  exists (v :: vs). reflexivity.
Qed.

Lemma frameName_small i : (i < 6)%nat -> FRAME_NAMES !! i = Some (frameName i).
Proof.
  intros Hi. do 6 (destruct i as [|i]; [reflexivity|]). lia.
Qed.

Lemma renderFrames_in_order rt (hasCtx : nat -> bool) (order : list nat)
    (fetched : list Headline) :
  (length fetched <= 6)%nat ->
  (forall i, (i < length fetched)%nat -> hasCtx i = true) ->
  order ≡ₚ seq 0 (length fetched) ->
  exists frames,
    renderFrames rt hasCtx order fetched = Returns frames
    /\ name <$> frames = take (length fetched) FRAME_NAMES
    /\ (forall i item, fetched !! i = Some item ->
          exists frame, frames !! i = Some frame
            /\ createFrame rt true item i (length fetched) = Returns frame
            /\ name frame = frameName i).
Proof.
  intros Hsix Hctx Hperm. unfold renderFrames.
  set (tasks := imap _ fetched).
  assert (Htask : forall i item, fetched !! i = Some item ->
            tasks !! i = Some (createFrame rt true item i (length fetched))).
  { intros i item Hi. unfold tasks. rewrite list_lookup_imap, Hi. simpl.
    rewrite Hctx by (eapply lookup_lt_Some, Hi). reflexivity. }
  assert (Hlen : length tasks = length fetched) by apply length_imap.
  destruct (all_returned tasks) as [frames Hframes].
  { apply Forall_lookup. intros i t Ht.
    destruct (lookup_lt_is_Some_2 fetched i) as [item Hi].
    { rewrite <- Hlen. eapply lookup_lt_Some, Ht. }
    rewrite (Htask i item Hi) in Ht. injection Ht as <-.
    destruct (createFrame_returns rt item i (length fetched)) as [bytes ->]. eauto. }
  assert (Hflen : length frames = length fetched).
  { rewrite <- Hlen, Hframes, length_fmap. reflexivity. }
  assert (Hat : forall i item, fetched !! i = Some item ->
            exists frame, frames !! i = Some frame
              /\ createFrame rt true item i (length fetched) = Returns frame
              /\ name frame = frameName i).
  { intros i item Hi. pose proof (Htask i item Hi) as Ht.
    rewrite Hframes, list_lookup_fmap in Ht.
    destruct (frames !! i) as [frame|]; [|discriminate]. simpl in Ht.
    injection Ht as Ht. exists frame. split; [reflexivity|]. split; [congruence|].
    destruct (createFrame_returns rt item i (length fetched)) as [bytes Hb].
    rewrite Hb in Ht. injection Ht as ->. reflexivity. }
  exists frames. split; [|split; [|exact Hat]].
  - rewrite Hframes. apply promiseAll_fulfilled. rewrite Hflen. exact Hperm.
  - apply list_eq. intros i. rewrite list_lookup_fmap.
    destruct (decide (i < length fetched)%nat) as [Hi|Hi].
    + rewrite lookup_take_lt by exact Hi. rewrite frameName_small by lia.
      destruct (lookup_lt_is_Some_2 fetched i Hi) as [item Hitem].
      destruct (Hat i item Hitem) as (frame & -> & _ & Hname). simpl. congruence.
    + rewrite lookup_take_ge by lia.
      rewrite (proj2 (lookup_ge_None frames i)) by lia. reflexivity.
Qed.


End FrameProperties.


(** ** The page: a run *)

Section RunProperties.
Import Page.

(** C4. When the request succeeds and brings no headline, the run ends, in
    the error state with the message that no headlines are available today;
    its only status updates are [fetching] and then [error]. *)
Theorem empty_headlines_is_error rt w (s0 : RunState) response payload :
  fetchHeadlines w = Returns response ->
  resp_ok response = true ->
  resp_json response = Returns payload ->
  default [] (headlines payload) = [] ->
  fst (handleGenerate rt w s0) = Returns tt
  /\ exists new,
       trace (snd (handleGenerate rt w s0)) = trace s0 ++ new
       /\ statusUpdates new = [fetching; error]
       /\ statusAfter (trace s0 ++ new) = error
       /\ errorAfter (trace s0 ++ new) = Some NO_HEADLINES_TODAY
       /\ last new = Some (SetIsGenerating false).
Proof.
  intros Hfetch Hok Hjson Hempty. destruct s0 as [ff vu ph t0].
  unfold handleGenerate, handleGenerate_try, tryCatchFinally.
  unfold mbind, run_bind, emit, getRefs, when, await, throw, setVideoUrlRef.
  cbn [ffmpegRef videoUrlRef progressHandlerRef trace fst snd].
  rewrite Hfetch, Hok, Hjson, Hempty.
  destruct (isEmpty (default [] vu));
    cbn [negb bool_decide decide_rel mret run_ret fst snd trace length];
    rewrite ?bool_decide_eq_true_2 by reflexivity;
    cbn [fst snd trace ffmpegRef videoUrlRef progressHandlerRef].
  all: (split; [reflexivity|]).
  all: rewrite <- !app_assoc; eexists; (split; [reflexivity|]).
  all: unfold statusAfter, errorAfter; rewrite !fold_left_app.
  all: repeat split.
Qed.

(** C8 at a run whose encoder reports progress: the value goes from 55
    down to 10, and from 100 down to 85 once the encoder is done. *)
Theorem progress_drops_during_encode :
  progressUpdates (trace (snd (handleGenerate sampleRuntime sampleWorld mounted)))
  = [0; 5; 15; 40; 55; 10; 100; 85; 100]%Z.
Proof. vm_compute. reflexivity. Qed.

End RunProperties.

Lemma empty_headlines_is_error_witness :
  fst (Page.handleGenerate sampleRuntime emptyFeedWorld Page.mounted) = Returns tt
  /\ Page.statusUpdates (Page.trace (snd (Page.handleGenerate sampleRuntime emptyFeedWorld
                                            Page.mounted)))
     = [Page.fetching; Page.error].
Proof.
  destruct (empty_headlines_is_error sampleRuntime emptyFeedWorld Page.mounted
              (Page.mkHeadlinesResponse true (Returns (Page.mkPayload (Some []) None)))
              (Page.mkPayload (Some []) None))
    as (Hret & new & Htrace & Hst & _); try reflexivity.
  split; [exact Hret|]. rewrite Htrace. exact Hst.
Defined.

(** ** The page: progress at the checkpoints *)

Section ProgressProperties.
Import Page.

Lemma progressUpdates_app a b :
  progressUpdates (a ++ b) = progressUpdates a ++ progressUpdates b.
Proof. apply omap_app. Qed.

Section Quiet.
Context {X : Type} (obs : Effect -> option X).

Lemma quiet_ret {A} (a : A) : quiet obs (mret a).
Proof. intros s. exists []. rewrite app_nil_r. split; reflexivity. Qed.

Lemma quiet_await {A} (o : Outcome A) : quiet obs (await o).
Proof. intros s. exists []. rewrite app_nil_r. split; reflexivity. Qed.

Lemma quiet_throw {A} e : quiet obs (@throw A e).
Proof. intros s. exists []. rewrite app_nil_r. split; reflexivity. Qed.

Lemma quiet_getRefs : quiet obs getRefs.
Proof. intros s. exists []. rewrite app_nil_r. split; reflexivity. Qed.

Lemma quiet_setFfmpegRef r : quiet obs (setFfmpegRef r).
Proof. intros s. exists []. simpl. rewrite app_nil_r. split; reflexivity. Qed.

Lemma quiet_setVideoUrlRef r : quiet obs (setVideoUrlRef r).
Proof. intros s. exists []. simpl. rewrite app_nil_r. split; reflexivity. Qed.

Lemma quiet_setProgressHandlerRef r : quiet obs (setProgressHandlerRef r).
Proof. intros s. exists []. simpl. rewrite app_nil_r. split; reflexivity. Qed.

Lemma quiet_emit e : obs e = None -> quiet obs (emit e).
Proof. intros He s. exists [e]. split; [reflexivity|]. simpl. rewrite He. reflexivity. Qed.

Lemma quiet_bind {A B} (m : Run A) (f : A -> Run B) :
  quiet obs m -> (forall a, quiet obs (f a)) -> quiet obs (m ≫= f).
Proof.
  intros Hm Hf s. destruct (Hm s) as (new1 & Ht1 & Hp1).
  unfold mbind, run_bind. destruct (m s) as [[a|e|] s1]; simpl in Ht1.
  - destruct (Hf a s1) as (new2 & Ht2 & Hp2). exists (new1 ++ new2).
    rewrite Ht2, Ht1, app_assoc, omap_app, Hp1, Hp2. split; reflexivity.
  - exists new1. split; assumption.
  - exists new1. split; assumption.
Qed.

Lemma quiet_when b m : quiet obs m -> quiet obs (when b m).
Proof. intros Hm. destruct b; [exact Hm|apply quiet_ret]. Qed.

Lemma quiet_forEach {A} (l : list A) (f : A -> Run unit) :
  (forall a, a ∈ l -> quiet obs (f a)) -> quiet obs (forEach l f).
Proof.
  induction l as [|a l IH]; intros Hf; simpl; [apply quiet_ret|].
  apply quiet_bind; [apply Hf; left|].
  intros _. apply IH. intros b Hb. apply Hf. right. exact Hb.
Qed.

Lemma quiet_ensureFfmpeg w : quiet obs (ensureFfmpeg w).
Proof.
  unfold ensureFfmpeg.
  repeat first
    [ apply quiet_bind; [|intros ?]
    | apply quiet_when
    | apply quiet_getRefs
    | apply quiet_await
    | apply quiet_setFfmpegRef
    | apply quiet_setProgressHandlerRef ].
Qed.

Lemma quiet_cleanupFfmpegFiles w :
  (forall path, obs (DeleteFile path) = None) -> quiet obs (cleanupFfmpegFiles w).
Proof.
  intros Hobs s. unfold cleanupFfmpegFiles. destruct (ffListDir w) as [entries|e|].
  - revert s. apply quiet_bind; [|intros _; apply quiet_await].
    apply quiet_forEach. intros entry _. apply quiet_emit, Hobs.
  - exists []. rewrite app_nil_r. split; reflexivity.
  - exists []. rewrite app_nil_r. split; reflexivity.
Qed.

Lemma quiet_tryCatchFinally body handler fin :
  quiet obs body -> (forall e, quiet obs (handler e)) -> quiet obs fin ->
  quiet obs (tryCatchFinally body handler fin).
Proof.
  intros Hbody Hh Hfin s. destruct (Hbody s) as (new1 & Ht1 & Hp1).
  unfold tryCatchFinally. destruct (body s) as [[a|e|] s1]; simpl in Ht1.
  - destruct (Hfin s1) as (new2 & Ht2 & Hp2). exists (new1 ++ new2).
    rewrite Ht2, Ht1, app_assoc, omap_app, Hp1, Hp2. split; reflexivity.
  - destruct (quiet_bind (handler e) (fun _ => fin) (Hh e) (fun _ => Hfin) s1)
      as (new2 & Ht2 & Hp2).
    exists (new1 ++ new2).
    rewrite Ht2, Ht1, app_assoc, omap_app, Hp1, Hp2. split; reflexivity.
  - exists new1. split; assumption.
Qed.

(** A handler and a [finally] block that are quiet only add quiet effects
    to what the body did. *)
Lemma tryCatchFinally_appends body handler fin s :
  (forall e, quiet obs (handler e)) -> quiet obs fin ->
  exists post,
    trace (snd (tryCatchFinally body handler fin s)) = trace (snd (body s)) ++ post
    /\ omap obs post = [].
Proof.
  intros Hh Hfin. unfold tryCatchFinally. destruct (body s) as [[a|e|] s1]; simpl.
  - apply Hfin.
  - apply (quiet_bind (handler e) (fun _ => fin) (Hh e) (fun _ => Hfin)).
  - exists []. rewrite app_nil_r. split; reflexivity.
Qed.

End Quiet.

End ProgressProperties.

Ltac solve_quiet :=
  repeat first
    [ apply quiet_emit; reflexivity
    | apply quiet_await
    | apply quiet_throw
    | apply quiet_getRefs
    | apply quiet_setVideoUrlRef
    | apply quiet_ensureFfmpeg
    | apply quiet_cleanupFfmpegFiles; reflexivity
    | apply quiet_ret
    | apply quiet_when
    | apply quiet_bind; [|intros ?]
    | apply quiet_forEach; intros ? ? ].

Section Checkpoints.
Import Page.

Lemma quiet_climbs {A} lo hi (m : Run A) : quiet progressOf m -> climbs lo hi m.
Proof.
  intros Hm s. destruct (Hm s) as (new & Ht & Hp). exists new.
  unfold progressUpdates. rewrite Hp. split; [exact Ht|]. split; constructor.
Qed.

Lemma climbs_emit_progress lo hi p :
  (lo <= p <= hi)%Z -> climbs lo hi (emit (SetProgress p)).
Proof.
  intros Hp s. exists [SetProgress p]. split; [reflexivity|]. simpl.
  split; repeat constructor; lia.
Qed.

Lemma climbs_bind {A B} lo mid hi (m : Run A) (f : A -> Run B) :
  (lo <= mid <= hi)%Z ->
  climbs lo mid m -> (forall a, climbs mid hi (f a)) -> climbs lo hi (m ≫= f).
Proof.
  intros Hmid Hm Hf s. destruct (Hm s) as (new1 & Ht1 & Hs1 & Hb1).
  assert (Hb1' : Forall (fun p => lo <= p <= hi)%Z (progressUpdates new1)).
  { eapply Forall_impl; [exact Hb1|]. simpl. intros p Hp. lia. }
  unfold mbind, run_bind. destruct (m s) as [[a|e|] s1]; simpl in Ht1.
  - destruct (Hf a s1) as (new2 & Ht2 & Hs2 & Hb2). exists (new1 ++ new2).
    rewrite Ht2, Ht1, app_assoc, progressUpdates_app. split; [reflexivity|]. split.
    + apply StronglySorted_app_2; [|exact Hs1|exact Hs2].
      intros x1 x2 H1 H2.
      rewrite Forall_forall in Hb1, Hb2.
      specialize (Hb1 x1 H1). specialize (Hb2 x2 H2). simpl in *. lia.
    + apply Forall_app. split; [exact Hb1'|].
      eapply Forall_impl; [exact Hb2|]. simpl. intros p Hp. lia.
  - exists new1. repeat split; assumption.
  - exists new1. repeat split; assumption.
Qed.

Lemma climbs_tryCatchFinally lo hi body handler fin :
  climbs lo hi body -> (forall e, quiet progressOf (handler e)) -> quiet progressOf fin ->
  climbs lo hi (tryCatchFinally body handler fin).
Proof.
  intros Hbody Hh Hfin s. destruct (Hbody s) as (new1 & Ht1 & Hs1 & Hb1).
  unfold tryCatchFinally. destruct (body s) as [[a|e|] s1]; simpl in Ht1.
  - destruct (Hfin s1) as (new2 & Ht2 & Hp2). exists (new1 ++ new2).
    rewrite Ht2, Ht1, app_assoc, progressUpdates_app.
    unfold progressUpdates at 2 4. rewrite Hp2, app_nil_r.
    repeat split; assumption.
  - destruct (quiet_bind progressOf (handler e) (fun _ => fin) (Hh e) (fun _ => Hfin) s1)
      as (new2 & Ht2 & Hp2).
    exists (new1 ++ new2).
    rewrite Ht2, Ht1, app_assoc, progressUpdates_app.
    unfold progressUpdates at 2 4. rewrite Hp2, app_nil_r.
    repeat split; assumption.
  - exists new1. repeat split; assumption.
Qed.

(** The quiet stretch [m] leaves the level where it is. *)
Ltac pass_quiet :=
  match goal with
  | |- climbs ?lo ?hi (_ ≫= _) =>
      eapply (climbs_bind lo lo hi); [lia|apply quiet_climbs|intros ?]
  end.

(** The checkpoint [p] raises the level to [p]. *)
Ltac pass_checkpoint p :=
  match goal with
  | |- climbs ?lo ?hi (_ ≫= _) =>
      eapply (climbs_bind lo p hi); [lia|apply climbs_emit_progress; lia|intros _]
  end.

(** X20. Apart from what the progress handler sets, the progress of a run never
    goes down: with an encoder that reports no number, the updates of a run
    are in non-decreasing order, whatever else happens. *)
Lemma checkpoints_nondecreasing rt w :
  Forall (fun raw => raw = None) (ffExecProgress w) ->
  climbs 0 100 (handleGenerate rt w).
Proof.
  intros Hsilent. unfold handleGenerate.
  do 3 (pass_quiet; [solve_quiet|]).
  pass_quiet; [solve_quiet|].
  pass_checkpoint 0%Z.
  do 2 (pass_quiet; [solve_quiet|]).
  pass_checkpoint 5%Z.
  apply climbs_tryCatchFinally; [|intros e; solve_quiet|solve_quiet].
  unfold handleGenerate_try.
  do 4 (pass_quiet; [solve_quiet|]).
  do 2 (pass_quiet; [solve_quiet|]).
  pass_checkpoint 15%Z.
  do 3 (pass_quiet; [solve_quiet|]).
  pass_checkpoint 40%Z.
  pass_quiet; [solve_quiet|].
  pass_checkpoint 55%Z.
  do 2 (pass_quiet; [solve_quiet|]).
  pass_quiet.
  { apply quiet_when, quiet_forEach. intros raw Hraw.
    rewrite Forall_forall in Hsilent. rewrite (Hsilent raw Hraw). apply quiet_ret. }
  pass_quiet; [solve_quiet|].
  pass_checkpoint 85%Z.
  do 4 (pass_quiet; [solve_quiet|]).
  pass_checkpoint 100%Z.
  apply quiet_climbs. solve_quiet.
Qed.

End Checkpoints.

(** ** The page: what reaches the encoder *)

Section StagingProperties.
Import Page.

Lemma filesWritten_app a b : filesWritten (a ++ b) = filesWritten a ++ filesWritten b.
Proof. apply omap_app. Qed.

Lemma ensureFfmpeg_loads w s :
  ffLoad w = Returns tt ->
  exists s', ensureFfmpeg w s = (Returns tt, s') /\ trace s' = trace s.
Proof.
  intros Hload. destruct s as [[[|]|] vu ph t];
    unfold ensureFfmpeg, mbind, run_bind, getRefs, when, await, setFfmpegRef,
      setProgressHandlerRef; simpl; rewrite ?Hload; eauto.
Qed.

Lemma forEach_cons {A} (a : A) l (f : A -> Run unit) s :
  forEach (a :: l) f s =
  match f a s with
  | (Returns _, s') => forEach l f s'
  | (Throws e, s') => (Throws e, s')
  | (Pending, s') => (Pending, s')
  end.
Proof. reflexivity. Qed.

Lemma emit_then_await {A} e (o : Outcome A) s :
  (emit e;; await o) s =
  (o, mkRunState (ffmpegRef s) (videoUrlRef s) (progressHandlerRef s) (trace s ++ [e])).
Proof. reflexivity. Qed.

Lemma forEach_deletes (entries : list FSNode) s :
  exists s', forEach entries (fun entry => emit (DeleteFile (node_name entry))) s
             = (Returns tt, s')
    /\ exists dels, trace s' = trace s ++ dels /\ filesWritten dels = [].
Proof.
  revert s. induction entries as [|entry entries IH]; intros s; simpl.
  - exists s. split; [reflexivity|]. exists []. rewrite app_nil_r. split; reflexivity.
  - unfold mbind, run_bind, emit at 1. simpl.
    destruct (IH (mkRunState (ffmpegRef s) (videoUrlRef s) (progressHandlerRef s)
                    (trace s ++ [DeleteFile (node_name entry)])))
      as (s' & -> & dels & Ht & Hd).
    exists s'. split; [reflexivity|]. exists (DeleteFile (node_name entry) :: dels).
    simpl in Ht. rewrite Ht, <- app_assoc. split; [reflexivity|exact Hd].
Qed.

Lemma cleanupFfmpegFiles_returns w s :
  isPending (ffListDir w) = false ->
  (forall path, isPending (ffDeleteFile w path) = false) ->
  exists s', cleanupFfmpegFiles w s = (Returns tt, s')
    /\ exists dels, trace s' = trace s ++ dels /\ filesWritten dels = [].
Proof.
  intros Hlist Hdel. unfold cleanupFfmpegFiles.
  destruct (ffListDir w) as [entries|e|]; [| |discriminate].
  - unfold mbind, run_bind.
    destruct (forEach_deletes (List.filter isStale entries) s) as (s' & -> & Hs').
    rewrite (proj2 (forallb_forall _ _)).
    + exists s'. split; [reflexivity|exact Hs'].
    + intros entry _. rewrite Hdel. reflexivity.
  - exists s. split; [reflexivity|]. exists []. rewrite app_nil_r. split; reflexivity.
Qed.

Lemma forEach_writes w (frames : list Frame) s :
  (forall frame, frame ∈ frames -> ffWriteFile w (name frame) = Returns tt) ->
  exists s',
    forEach frames (fun frame =>
      emit (WriteFile (name frame) (data frame));; await (ffWriteFile w (name frame))) s
    = (Returns tt, s')
    /\ trace s' = trace s ++ (writeOf <$> frames).
Proof.
  revert s. induction frames as [|frame frames IH]; intros s Hw.
  - exists s. split; [reflexivity|]. simpl. rewrite app_nil_r. reflexivity.
  - rewrite forEach_cons. cbv beta. rewrite emit_then_await, (Hw frame) by left.
    destruct (IH (mkRunState (ffmpegRef s) (videoUrlRef s) (progressHandlerRef s)
                    (trace s ++ [WriteFile (name frame) (data frame)])))
      as (s' & -> & Ht).
    { intros f Hf. apply Hw. right. exact Hf. }
    exists s'. split; [reflexivity|].
    simpl in Ht. rewrite Ht, <- app_assoc. reflexivity.
Qed.

Lemma filesWritten_writes (frames : list Frame) : filesWritten (writeOf <$> frames) = frames.
Proof.
  unfold filesWritten. induction frames as [|[n d] frames IH]; [reflexivity|].
  rewrite fmap_cons. change (mkFrame n d :: omap fileOf (writeOf <$> frames) = mkFrame n d :: frames).
  rewrite IH. reflexivity.
Qed.

Lemma staging_writes (frames : list Frame) :
  omap stagingOf (writeOf <$> frames) = writeOf <$> frames.
Proof.
  induction frames as [|frame frames IH]; [reflexivity|]. rewrite fmap_cons.
  change (writeOf frame :: omap stagingOf (writeOf <$> frames) = writeOf frame :: (writeOf <$> frames)).
  rewrite IH. reflexivity.
Qed.

(** What a quiet computation adds to the trace, read off a run of it. *)
Lemma quiet_at {A X} (obs : Effect -> option X) (m : Run A) s o s' new :
  quiet obs m -> m s = (o, s') -> trace s' = trace s ++ new -> omap obs new = [].
Proof.
  intros Hm E Ht. destruct (Hm s) as (n & Hn & Hq). rewrite E in Hn. simpl in Hn.
  rewrite Hn in Ht. apply app_inv_head in Ht. subst n. exact Hq.
Qed.

Lemma forEach_handler_events (events : list (option Q)) b s :
  exists s', when b (forEach events handler) s = (Returns tt, s')
    /\ exists evs, trace s' = trace s ++ evs /\ filesWritten evs = [].
Proof.
  destruct b; simpl.
  2:{ exists s. split; [reflexivity|]. exists []. rewrite app_nil_r. split; reflexivity. }
  revert s. induction events as [|[raw|] events IH]; intros s; simpl.
  - exists s. split; [reflexivity|]. exists []. rewrite app_nil_r. split; reflexivity.
  - unfold mbind, run_bind, emit at 1. simpl.
    destruct (IH (mkRunState (ffmpegRef s) (videoUrlRef s) (progressHandlerRef s)
                    (trace s ++ [SetProgress (Z.min 100 (Math_round (raw * 100)))])))
      as (s' & -> & evs & Ht & Hevs).
    exists s'. split; [reflexivity|].
    exists (SetProgress (Z.min 100 (Math_round (raw * 100))) :: evs).
    simpl in Ht. rewrite Ht, <- app_assoc. split; [reflexivity|exact Hevs].
  - unfold mbind, run_bind. simpl. apply IH.
Qed.

Lemma run_bind_returns {A B} (m : Run A) (f : A -> Run B) s a s' :
  m s = (Returns a, s') -> (m ≫= f) s = f a s'.
Proof. intros H. unfold mbind, run_bind. rewrite H. reflexivity. Qed.

Lemma run_bind_stops {A B} (m : Run A) (f : A -> Run B) s o s' :
  m s = (o, s') -> (forall a, o <> Returns a) ->
  exists o', (m ≫= f) s = (o', s').
Proof.
  intros H Ho. unfold mbind, run_bind. rewrite H.
  destruct o as [a| |]; [destruct (Ho a); reflexivity|eauto..].
Qed.

Ltac run_step tac :=
  erewrite run_bind_returns by tac; cbv beta;
  cbn [ffmpegRef videoUrlRef progressHandlerRef trace].

Ltac run_emit := run_step ltac:(reflexivity).

(** The [try] block of a run that gets as far as the encoder. *)
Lemma handleGenerate_try_stages rt w s response payload fetched frames :
  fetchHeadlines w = Returns response -> resp_ok response = true ->
  resp_json response = Returns payload -> headlines payload = Some fetched ->
  fetched <> [] ->
  renderFrames rt (hasContext w) (completionOrder w) fetched = Returns frames ->
  ffLoad w = Returns tt -> isPending (ffListDir w) = false ->
  (forall path, isPending (ffDeleteFile w path) = false) ->
  (forall path, ffWriteFile w path = Returns tt) ->
  exists new,
    trace (snd (handleGenerate_try rt w s)) = trace s ++ new
    /\ filesWritten new = frames
    /\ Exec EXEC_ARGS ∈ new
    /\ omap stagingOf new = (writeOf <$> frames) ++ [Exec EXEC_ARGS].
Proof.
  intros Hfetch Hok Hjson Hhs Hne Hrender Hload Hlist Hdel Hwrite.
  unfold handleGenerate_try.
  run_step ltac:(unfold await; rewrite Hfetch; reflexivity).
  rewrite Hok. cbn [negb when].
  run_emit.
  run_step ltac:(unfold await; rewrite Hjson; reflexivity).
  rewrite Hhs. change (default [] (Some fetched)) with fetched.
  rewrite bool_decide_eq_false_2 by (destruct fetched; [contradiction|discriminate]).
  cbn [when].
  do 4 run_emit.
  match goal with |- context [(ensureFfmpeg w ≫= _) ?s0] =>
    destruct (ensureFfmpeg_loads w s0 Hload) as (s1 & E1 & Ht1) end.
  run_step ltac:(exact E1).
  destruct (cleanupFfmpegFiles_returns w s1 Hlist Hdel) as (s2 & E2 & dels & Ht2 & Hdels).
  assert (Hdels' : omap stagingOf dels = []).
  { apply (quiet_at stagingOf (cleanupFfmpegFiles w) s1 (Returns tt) s2); [|exact E2|exact Ht2].
    apply quiet_cleanupFfmpegFiles. reflexivity. }
  run_step ltac:(exact E2).
  run_step ltac:(unfold await; rewrite Hrender; reflexivity).
  run_emit.
  match goal with |- context [(forEach frames _ ≫= _) ?s0] =>
    destruct (forEach_writes w frames s0) as (s3 & E3 & Ht3) end.
  { intros frame _. apply Hwrite. }
  run_step ltac:(exact E3).
  do 3 run_emit.
  match goal with |- context [(when ?b _ ≫= _) ?s0] =>
    destruct (forEach_handler_events (ffExecProgress w) b s0)
      as (s4 & E4 & evs & Ht4 & Hevs);
    assert (Hevs' : omap stagingOf evs = [])
      by (apply (quiet_at stagingOf (when b (forEach (ffExecProgress w) handler)) s0
                   (Returns tt) s4);
          [apply quiet_when, quiet_forEach; intros [raw|] _;
             [apply quiet_emit; reflexivity|apply quiet_ret]
          |exact E4|exact Ht4])
  end.
  run_step ltac:(exact E4).
  match goal with |- context [trace (snd (?tail s4))] =>
    assert (Htail : quiet fileOf tail) by solve_quiet;
    assert (Htail' : quiet stagingOf tail) by solve_quiet;
    destruct (Htail s4) as (rest & Hrt & Hrest);
    pose proof (quiet_at stagingOf tail s4 (fst (tail s4)) (snd (tail s4)) rest Htail'
                  (surjective_pairing _) Hrt) as Hrest';
    rewrite Hrt
  end.
  simpl in Ht1, Ht3, Ht4. rewrite Ht4, Ht3, Ht2, Ht1.
  rewrite <- !app_assoc. eexists. split; [reflexivity|]. split; [|split].
  - unfold filesWritten in *. rewrite !omap_app, Hdels, Hevs, Hrest.
    fold (filesWritten (writeOf <$> frames)). rewrite filesWritten_writes.
    simpl. rewrite app_nil_r. reflexivity.
  - rewrite !elem_of_app, !elem_of_cons. tauto.
  - rewrite !omap_app, Hdels', Hevs', Hrest', staging_writes.
    simpl. reflexivity.
Qed.

(** X21. In a run that gets as far as the encoder, the files written are the
    rendered frames, in the order of the headlines, and the encoder is then
    started on them: the writes and the encoder commands of the run, in
    the order of the trace, are the writes of the frames followed by the
    one command. *)
Lemma run_stages_rendered_frames rt w s0 response payload fetched :
  fetchHeadlines w = Returns response -> resp_ok response = true ->
  resp_json response = Returns payload -> headlines payload = Some fetched ->
  fetched <> [] -> (length fetched <= 6)%nat ->
  (forall i, (i < length fetched)%nat -> hasContext w i = true) ->
  completionOrder w ≡ₚ seq 0 (length fetched) ->
  ffLoad w = Returns tt -> isPending (ffListDir w) = false ->
  (forall path, isPending (ffDeleteFile w path) = false) ->
  (forall path, ffWriteFile w path = Returns tt) ->
  exists frames new,
    renderFrames rt (hasContext w) (completionOrder w) fetched = Returns frames
    /\ name <$> frames = take (length fetched) FRAME_NAMES
    /\ trace (snd (handleGenerate rt w s0)) = trace s0 ++ new
    /\ filesWritten new = frames
    /\ Exec EXEC_ARGS ∈ new
    /\ omap stagingOf new = (writeOf <$> frames) ++ [Exec EXEC_ARGS].
Proof.
  intros Hfetch Hok Hjson Hhs Hne Hsix Hctx Hperm Hload Hlist Hdel Hwrite.
  destruct (renderFrames_in_order rt (hasContext w) (completionOrder w) fetched
              Hsix Hctx Hperm) as (frames & Hrender & Hnames & _).
  exists frames.
  assert (Hbefore : exists s1 pre,
            handleGenerate rt w s0
            = tryCatchFinally (handleGenerate_try rt w)
                (fun err =>
                   emit (ConsoleError err);;
                   emit (SetError (Some match err with
                                        | ErrorObject message => message
                                        | OtherValue => SOMETHING_WENT_WRONG
                                        end));;
                   emit (SetStatus error))
                (emit (SetIsGenerating false)) s1
            /\ trace s1 = trace s0 ++ pre /\ filesWritten pre = []
            /\ omap stagingOf pre = []).
  { unfold handleGenerate. do 3 run_emit.
    destruct (isEmpty (default [] (videoUrlRef s0))); cbn [negb when].
    - do 5 run_emit. eexists _, _. split; [reflexivity|].
      cbn [trace]. rewrite <- !app_assoc. repeat split; reflexivity.
    - do 5 run_emit.
      eexists _, _. split; [reflexivity|].
      cbn [trace]. rewrite <- !app_assoc. repeat split; reflexivity. }
  destruct Hbefore as (s1 & pre & -> & Hs1 & Hpre & Hpre').
  destruct (handleGenerate_try_stages rt w s1 response payload fetched frames)
    as (new & Htry & Hfiles & Hexec & Hstaging); try assumption.
  destruct (tryCatchFinally_appends stagingOf (handleGenerate_try rt w)
              (fun err =>
                 emit (ConsoleError err);;
                 emit (SetError (Some match err with
                                      | ErrorObject message => message
                                      | OtherValue => SOMETHING_WENT_WRONG
                                      end));;
                 emit (SetStatus error))
              (emit (SetIsGenerating false)) s1)
    as (post' & Hpost' & Hquiet'); [intros e; solve_quiet|solve_quiet|].
  destruct (tryCatchFinally_appends fileOf (handleGenerate_try rt w)
              (fun err =>
                 emit (ConsoleError err);;
                 emit (SetError (Some match err with
                                      | ErrorObject message => message
                                      | OtherValue => SOMETHING_WENT_WRONG
                                      end));;
                 emit (SetStatus error))
              (emit (SetIsGenerating false)) s1)
    as (post & Hpost & Hquiet); [intros e; solve_quiet|solve_quiet|].
  assert (post' = post) as ->.
  { rewrite Hpost in Hpost'. apply app_inv_head in Hpost'. symmetry. exact Hpost'. }
  exists (pre ++ new ++ post). split; [exact Hrender|]. split; [exact Hnames|]. split.
  - rewrite Hpost, Htry, Hs1, <- !app_assoc. reflexivity.
  - split; [|split].
    + unfold filesWritten in *. rewrite !omap_app, Hpre, Hfiles, Hquiet, app_nil_r.
      reflexivity.
    + rewrite !elem_of_app. tauto.
    + rewrite !omap_app, Hpre', Hstaging, Hquiet', app_nil_r. reflexivity.
Qed.

End StagingProperties.

(** ** The whole path on two items *)

(** The route turns the two items into two headlines; the run on them
    writes [frame000.png] and [frame001.png], starts the encoder once, and
    ends in [done] at 100% with a video URL. *)
Example end_to_end_two_items :
  (exists hs,
      Route.GET twoItemFeed = Returns (Route.mkJsonResponse (Route.HeadlinesBody hs) 200)
      /\ mapM typedHeadline hs = Some sampleHeadlines)
  /\ (let t := Page.trace (snd (Page.handleGenerate sampleRuntime sampleWorld Page.mounted)) in
      Page.name <$> Page.filesWritten t = [js "frame000.png"; js "frame001.png"]
      /\ List.filter (fun e => match e with Page.Exec _ => true | _ => false end) t
         = [Page.Exec Page.EXEC_ARGS]
      /\ Page.statusAfter t = Page.done
      /\ last (Page.progressUpdates t) = Some 100%Z
      /\ Page.videoUrlAfter t = Some (js "blob:video")).
Proof.
  split.
  - exists [Route.mkHeadlineJson (js "A") (Route.TagString []) (Route.TagString []) [];
            Route.mkHeadlineJson (js "B") (Route.TagString []) (Route.TagString []) []].
    split; reflexivity.
  - cbv zeta. repeat split; reflexivity.
Qed.

(** * Further properties *)

(** ** sanitizeText: fixed points and length *)

Lemma clean_is_fixed s :
  noMatch matchTag s -> singleSpaced s -> trim s = s -> Route.sanitizeText (Some s) = s.
Proof.
  intros Htag Hsp Htrim. destruct s as [|c r]; [reflexivity|].
  unfold Route.sanitizeText.
  rewrite (replaceAll_noMatch matchTag) by exact Htag.
  rewrite collapse_fixed by exact Hsp. exact Htrim.
Qed.

(** X1. The strings [sanitizeText] leaves as they are are exactly the clean
    ones: no tag, single spaces as only white space, nothing to trim. *)
Theorem sanitizeText_fixed_points (s : jsstring) :
  Route.sanitizeText (Some s) = s
  <-> noMatch matchTag s /\ singleSpaced s /\ trim s = s.
Proof.
  split.
  - intros H. pose proof (sanitizeText_props (Some s)) as P. cbv zeta in P.
    rewrite H in P. exact P.
  - intros (Htag & Hsp & Htrim). apply clean_is_fixed; assumption.
Qed.

Lemma replaceAll_length m x s : (length (replaceAll m [x] s) <= length s)%nat.
Proof.
  induction s as [s IH] using list_length_ind. destruct s as [|c rest].
  - simp replaceAll. simpl. lia.
  - rewrite replaceAll_cons. destruct (m (c :: rest)) as [[|k]|]; simpl.
    + specialize (IH rest). simpl in IH. lia.
    + assert (H := IH (drop k rest)). rewrite length_drop in *. simpl in H. lia.
    + specialize (IH rest). simpl in IH. lia.
Qed.

Lemma trim_length s : (length (trim s) <= length s)%nat.
Proof.
  unfold trim, trimEnd, trimStart. rewrite length_rev.
  pose proof (dropWhile_length isWhiteSpace (rev (dropWhile isWhiteSpace s))) as H1.
  pose proof (dropWhile_length isWhiteSpace s) as H2.
  rewrite length_rev in H1. lia.
Qed.

(** X2. [sanitizeText] never returns more code units than it was given. *)
Theorem sanitizeText_length (value : option jsstring) :
  (length (Route.sanitizeText value) <= length (default [] value))%nat.
Proof.
  destruct value as [[|c v]|]; simpl; try lia.
  etransitivity; [apply trim_length|].
  etransitivity; [apply replaceAll_length|].
  apply (replaceAll_length matchTag SP (c :: v)).
Qed.

(** ** The route: what a response can be *)

Section RouteShape.

Lemma UNKNOWN_TITLE_clean :
  Route.UNKNOWN_TITLE <> []
  /\ Route.sanitizeText (Some Route.UNKNOWN_TITLE) = Route.UNKNOWN_TITLE.
Proof. split; [vm_compute; discriminate|vm_compute; reflexivity]. Qed.

Lemma sanitizeText_again value :
  Route.sanitizeText (Some (Route.sanitizeText value)) = Route.sanitizeText value.
Proof.
  destruct (sanitizeText_props value) as (Htag & Hsp & Htrim).
  apply clean_is_fixed; assumption.
Qed.

Lemma headlineOf_clean it :
  Route.json_title (headlineOf it) <> []
  /\ Route.sanitizeText (Some (Route.json_title (headlineOf it))) = Route.json_title (headlineOf it)
  /\ Route.sanitizeText (Some (Route.json_description (headlineOf it)))
     = Route.json_description (headlineOf it).
Proof.
  unfold headlineOf. cbn [Route.json_title Route.json_description]. split; [|split].
  - destruct (Route.sanitizeText (textOf (Route.title it))) eqn:E; cbn [orElse];
      [apply UNKNOWN_TITLE_clean|discriminate].
  - destruct (Route.sanitizeText (textOf (Route.title it))) eqn:E; cbn [orElse];
      [apply UNKNOWN_TITLE_clean|].
    rewrite <- E. apply sanitizeText_again.
  - apply sanitizeText_again.
Qed.

(** What [GET] does, by the cases of its collaborators. *)
Lemma GET_cases (w : Route.Upstream) :
  match Route.fetch w with
  | Returns response =>
      if Route.ok response then
        match Route.text response with
        | Returns xml =>
            match Route.parse w xml with
            | Returns parsed =>
                Route.GET w
                = if forallb convertible (take 6 (Route.itemsOf parsed))
                  then Returns (Route.mkJsonResponse
                                  (Route.HeadlinesBody
                                     (map headlineOf (take 6 (Route.itemsOf parsed)))) 200)
                  else Returns UNEXPECTED
            | Throws _ => Route.GET w = Returns UNEXPECTED
            | Pending => Route.GET w = Pending
            end
        | Throws _ => Route.GET w = Returns UNEXPECTED
        | Pending => Route.GET w = Pending
        end
      else Route.GET w
           = Returns (Route.mkJsonResponse (Route.ErrorBody (js "Failed to fetch headlines")) 502)
  | Throws _ => Route.GET w = Returns UNEXPECTED
  | Pending => Route.GET w = Pending
  end.
Proof.
  destruct (Route.fetch w) as [response|e|] eqn:Hf;
    [|unfold Route.GET, Route.GET_try; rewrite Hf; reflexivity..].
  destruct (Route.ok response) eqn:Hok;
    [|unfold Route.GET, Route.GET_try; rewrite Hf; simpl; rewrite Hok; reflexivity].
  destruct (Route.text response) as [xml|e|] eqn:Ht;
    [|unfold Route.GET, Route.GET_try; rewrite Hf; simpl; rewrite Hok; simpl; rewrite Ht;
      reflexivity..].
  destruct (Route.parse w xml) as [parsed|e|] eqn:Hp;
    [|unfold Route.GET, Route.GET_try; rewrite Hf; simpl; rewrite Hok; simpl; rewrite Ht;
      simpl; rewrite Hp; reflexivity..].
  apply (GET_mapping w response xml parsed Hf Hok Ht Hp).
Qed.

(** X3. Every headline of a 200 answer has a title that is not empty, and
    its title and description are clean (sanitizing them again changes
    nothing); there are at most six of them. *)
Theorem GET_headlines_wellformed (w : Route.Upstream) (r : Route.JsonResponse) :
  Route.GET w = Returns r -> Route.status r = 200%nat ->
  exists hs, Route.body r = Route.HeadlinesBody hs
    /\ (length hs <= 6)%nat
    /\ Forall (fun h => Route.json_title h <> []
                /\ Route.sanitizeText (Some (Route.json_title h)) = Route.json_title h
                /\ Route.sanitizeText (Some (Route.json_description h))
                   = Route.json_description h) hs.
Proof.
  pose proof (GET_cases w) as H.
  destruct (Route.fetch w) as [response|e|]; [|rewrite H; intros [= <-]; discriminate
                                              |rewrite H; discriminate].
  destruct (Route.ok response); [|rewrite H; intros [= <-]; discriminate].
  destruct (Route.text response) as [xml|e|]; [|rewrite H; intros [= <-]; discriminate
                                               |rewrite H; discriminate].
  destruct (Route.parse w xml) as [parsed|e|]; [|rewrite H; intros [= <-]; discriminate
                                                |rewrite H; discriminate].
  rewrite H. destruct (forallb convertible (take 6 (Route.itemsOf parsed)));
    [|intros [= <-]; discriminate].
  intros [= <-] _. exists (map headlineOf (take 6 (Route.itemsOf parsed))).
  split; [reflexivity|]. split.
  - rewrite length_map, length_take. lia.
  - apply Forall_forall. intros h Hh. apply list_elem_of_In, in_map_iff in Hh.
    destruct Hh as (it & <- & _). apply headlineOf_clean.
Qed.

(** X4. The handler never throws, and what it answers is one of three:
    200 with headlines, 502 or 500 with an error message. It stays without
    answer only when the request, the reading of its answer or the parser
    does. *)
Theorem GET_never_throws (w : Route.Upstream) :
  (forall e, Route.GET w <> Throws e)
  /\ (forall r, Route.GET w = Returns r ->
        (Route.status r = 200%nat /\ exists hs, Route.body r = Route.HeadlinesBody hs)
        \/ ((Route.status r = 502%nat \/ Route.status r = 500%nat) /\ exists msg, Route.body r = Route.ErrorBody msg))
  /\ (Route.GET w = Pending ->
        Route.fetch w = Pending
        \/ exists response, Route.fetch w = Returns response /\ Route.ok response = true
             /\ (Route.text response = Pending
                 \/ exists xml, Route.text response = Returns xml /\ Route.parse w xml = Pending)).
Proof.
  assert (Herr : forall r, Returns UNEXPECTED = Returns r ->
            (Route.status r = 200%nat /\ exists hs, Route.body r = Route.HeadlinesBody hs)
            \/ ((Route.status r = 502%nat \/ Route.status r = 500%nat)
                /\ exists msg, Route.body r = Route.ErrorBody msg)).
  { intros r [= <-]. right. unfold UNEXPECTED. cbn [Route.status Route.body]. eauto. }
  pose proof (GET_cases w) as H.
  destruct (Route.fetch w) as [response|e|] eqn:Hf.
  - destruct (Route.ok response) eqn:Hok.
    + destruct (Route.text response) as [xml|e|] eqn:Ht.
      * destruct (Route.parse w xml) as [parsed|e|] eqn:Hp.
        -- destruct (forallb convertible (take 6 (Route.itemsOf parsed))); rewrite H.
           ++ split; [discriminate|]. split; [|discriminate].
              intros r [= <-]. left. cbn [Route.status Route.body]. eauto.
           ++ split; [discriminate|]. split; [exact Herr|discriminate].
        -- rewrite H. split; [discriminate|]. split; [exact Herr|discriminate].
        -- rewrite H. split; [discriminate|]. split; [discriminate|]. intros _. right.
           exists response. rewrite Ht. eauto 10.
      * rewrite H. split; [discriminate|]. split; [exact Herr|discriminate].
      * rewrite H. split; [discriminate|]. split; [discriminate|]. intros _. right.
        exists response. rewrite Ht. eauto.
    + rewrite H. split; [discriminate|]. split; [|discriminate].
      intros r [= <-]. right. cbn [Route.status Route.body]. eauto.
  - rewrite H. split; [discriminate|]. split; [exact Herr|discriminate].
  - rewrite H. split; [discriminate|]. split; [discriminate|]. eauto.
Qed.

End RouteShape.

Lemma GET_headlines_wellformed_witness :
  exists hs,
    Route.GET twoItemFeed = Returns (Route.mkJsonResponse (Route.HeadlinesBody hs) 200)
    /\ Forall (fun h => Route.json_title h <> []) hs.
Proof.
  exists (map headlineOf (take 6 (Route.itemsOf
            (Route.mkParsed (Some (Route.mkRss (Some twoItemChannel))))))).
  split; [reflexivity|].
  destruct (GET_headlines_wellformed twoItemFeed
              (Route.mkJsonResponse
                 (Route.HeadlinesBody
                    (map headlineOf (take 6 (Route.itemsOf
                       (Route.mkParsed (Some (Route.mkRss (Some twoItemChannel)))))))) 200))
    as (hs & Hb & _ & Hall); [reflexivity|reflexivity|].
  injection Hb as <-. eapply Forall_impl; [exact Hall|]. intros h Hh. apply Hh.
Defined.

(** The feed with the numeric title is answered, with 500. *)
Lemma GET_never_throws_witness :
  (forall e, Route.GET numericTitleFeed <> Throws e)
  /\ Route.status UNEXPECTED = 500%nat.
Proof.
  split; [exact (proj1 (GET_never_throws numericTitleFeed))|].
  destruct (proj1 (proj2 (GET_never_throws numericTitleFeed)) UNEXPECTED eq_refl)
    as [[H _]|[[H|H] _]]; [discriminate H|discriminate H|exact H].
Defined.

(** ** Wrapping: what the lines are *)

Section WrapLines.
Import Page.

Variable measure : jsstring -> Q.
Variable maxWidth : Q.

Abbreviation acceptable := (fitsOrSingleWord measure maxWidth).

Lemma split_no_space s : Forall (Forall (fun c => c <> SP)) (split SP s).
Proof.
  induction s as [|c r IH]; simpl; [repeat constructor|].
  destruct (N.eqb_spec c SP) as [->|Hc].
  - constructor; [constructor|exact IH].
  - destruct (split SP r) as [|w ws]; [repeat constructor; exact Hc|].
    inversion IH; subst. constructor; [constructor; assumption|assumption].
Qed.

Lemma wrapStep_acceptable lines line w :
  Forall acceptable lines -> acceptable line -> Forall (fun c => c <> SP) w ->
  Forall acceptable (fst (wrapStep measure maxWidth (lines, line) w))
  /\ acceptable (snd (wrapStep measure maxWidth (lines, line) w)).
Proof.
  intros Hlines Hline Hw. unfold wrapStep. destruct line as [|c l]; cbn [isEmpty].
  - rewrite andb_false_r. simpl. split; [exact Hlines|right; exact Hw].
  - cbn [negb]. rewrite andb_true_r.
    destruct (tooWide measure maxWidth ((c :: l) ++ [SP] ++ w)) eqn:E; simpl.
    + split; [apply Forall_app; split; [exact Hlines|constructor; [exact Hline|constructor]]|].
      right. exact Hw.
    + split; [exact Hlines|]. left. apply tooWide_fits, E.
Qed.

Lemma wrap_loop_acceptable ws lines line :
  Forall acceptable lines -> acceptable line ->
  Forall (Forall (fun c => c <> SP)) ws ->
  Forall acceptable (fst (fold_left (wrapStep measure maxWidth) ws (lines, line)))
  /\ acceptable (snd (fold_left (wrapStep measure maxWidth) ws (lines, line))).
Proof.
  revert lines line. induction ws as [|w ws IH]; intros lines line Hlines Hline Hws.
  - simpl. split; assumption.
  - inversion Hws as [|? ? Hw Hws']; subst.
    change (fold_left (wrapStep measure maxWidth) (w :: ws) (lines, line))
      with (fold_left (wrapStep measure maxWidth) ws
              (wrapStep measure maxWidth (lines, line) w)).
    destruct (wrapStep_acceptable lines line w Hlines Hline Hw) as [H1 H2].
    destruct (wrapStep measure maxWidth (lines, line) w) as [lines' line'].
    apply IH; assumption.
Qed.

Lemma greedyLines_acceptable s : Forall acceptable (greedyLines measure maxWidth s).
Proof.
  unfold greedyLines.
  destruct (wrap_loop_acceptable (split SP s) [] []) as [H1 H2].
  - constructor.
  - right. constructor.
  - apply split_no_space.
  - destruct (fold_left (wrapStep measure maxWidth) (split SP s) ([], [])) as [lines line].
    simpl in *. destruct (isEmpty line); [exact H1|].
    apply Forall_app. split; [exact H1|constructor; [exact H2|constructor]].
Qed.

End WrapLines.

Section WrapText.
Import Page.

(** X5. Only a single word can overflow: every line of the greedy wrap
    either fits the width or contains no space. *)
Theorem greedy_lines_fit_or_single_word measure maxWidth (s : jsstring) :
  Forall (fun l => (measure l <= maxWidth)%Q \/ Forall (fun c => c <> SP) l)
    (greedyLines measure maxWidth s).
Proof. apply greedyLines_acceptable. Qed.

Lemma joinSp_snoc ls a w : joinSp ((ls ++ [a]) ++ [w]) = joinSp (ls ++ [a]) ++ SP :: w.
Proof.
  induction ls as [|l ls IH]; [reflexivity|].
  change ((((l :: ls) ++ [a]) ++ [w])) with (l :: ((ls ++ [a]) ++ [w])).
  change ((l :: ls) ++ [a]) with (l :: (ls ++ [a])).
  simpl joinSp. rewrite IH.
  destruct ((ls ++ [a]) ++ [w]) eqn:E1; [destruct ls; discriminate|].
  destruct (ls ++ [a]) eqn:E2; [destruct ls; discriminate|].
  rewrite <- app_assoc. reflexivity.
Qed.

Lemma joinSp_extend ls a b : joinSp (ls ++ [a ++ b]) = joinSp (ls ++ [a]) ++ b.
Proof.
  induction ls as [|l ls IH]; [reflexivity|].
  change ((l :: ls) ++ [a ++ b]) with (l :: (ls ++ [a ++ b])).
  change ((l :: ls) ++ [a]) with (l :: (ls ++ [a])).
  simpl joinSp. rewrite IH.
  destruct (ls ++ [a ++ b]) eqn:E1; [destruct ls; discriminate|].
  destruct (ls ++ [a]) eqn:E2; [destruct ls; discriminate|].
  rewrite <- app_assoc. reflexivity.
Qed.

Lemma wrap_loop_join measure maxWidth ws lines line :
  line <> [] -> Forall (fun w => w <> []) ws ->
  snd (fold_left (wrapStep measure maxWidth) ws (lines, line)) <> []
  /\ joinSp (fst (fold_left (wrapStep measure maxWidth) ws (lines, line))
             ++ [snd (fold_left (wrapStep measure maxWidth) ws (lines, line))])
     = joinSp (lines ++ [line]) ++ tailOf ws.
Proof.
  revert lines line. induction ws as [|w ws IH]; intros lines line Hne Hws.
  - simpl. unfold tailOf. simpl. rewrite app_nil_r. split; [exact Hne|reflexivity].
  - inversion Hws as [|? ? Hw Hws']; subst.
    change (fold_left (wrapStep measure maxWidth) (w :: ws) (lines, line))
      with (fold_left (wrapStep measure maxWidth) ws
              (wrapStep measure maxWidth (lines, line) w)).
    assert (Htail : forall x, x ++ tailOf (w :: ws) = (x ++ SP :: w) ++ tailOf ws).
    { intros x. unfold tailOf. simpl. rewrite <- app_assoc. reflexivity. }
    unfold wrapStep at 2 4 6. destruct line as [|c l]; [contradiction|]. cbn [isEmpty negb].
    rewrite andb_true_r.
    destruct (tooWide measure maxWidth ((c :: l) ++ [SP] ++ w)).
    + destruct (IH (lines ++ [c :: l]) w Hw Hws') as [H1 H2].
      split; [exact H1|]. rewrite H2, joinSp_snoc, Htail. reflexivity.
    + destruct (IH lines ((c :: l) ++ [SP] ++ w)) as [H1 H2]; [discriminate|exact Hws'|].
      split; [exact H1|]. rewrite H2.
      change ((c :: l) ++ [SP] ++ w) with ((c :: l) ++ SP :: w).
      rewrite joinSp_extend, Htail. reflexivity.
Qed.

Lemma trim_last s : trim s = s -> last s <> Some SP.
Proof.
  intros Htrim Hlast. unfold trim, trimEnd in Htrim.
  destruct (dropWhile isWhiteSpace (rev (trimStart s))) as [|c l] eqn:E.
  - simpl in Htrim. subst s. discriminate.
  - pose proof (dropWhile_head _ _ _ _ E) as Hc.
    rewrite <- Htrim in Hlast. simpl in Hlast. rewrite last_snoc in Hlast.
    injection Hlast as ->. discriminate.
Qed.

(** The words of a text with single spaces that does not end in a space:
    none after the first is empty, and the first is empty only when the
    text is empty or starts with a space. *)
Lemma split_words s :
  singleSpaced s -> last s <> Some SP ->
  exists w ws, split SP s = w :: ws /\ Forall (fun v => v <> []) ws
    /\ (w = [] -> s = [] \/ exists r, s = SP :: r).
Proof.
  induction s as [|c r IH]; intros Hsp Hlast.
  - exists [], []. simpl. repeat split; [constructor|auto].
  - destruct Hsp as [Hc Hsp]. destruct IH as (w' & ws' & Hs & Hne & Hw').
    + exact Hsp.
    + intros H. apply Hlast. destruct r; [discriminate|exact H].
    + simpl. rewrite Hs. destruct (N.eqb_spec c SP) as [->|Hne'].
      * exists [], (w' :: ws'). split; [reflexivity|]. split; [|eauto].
        constructor; [|exact Hne]. intros ->.
        destruct (Hc eq_refl) as [_ Hd]. destruct Hw' as [->|[r' ->]]; [reflexivity| |].
        -- apply Hlast. reflexivity.
        -- discriminate.
      * exists (c :: w'), ws'. split; [reflexivity|]. split; [exact Hne|discriminate].
Qed.

Lemma normalize_shape text : singleSpaced (normalize text) /\ trim (normalize text) = normalize text.
Proof.
  split; [apply singleSpaced_trim, collapse_singleSpaced|apply trim_idem].
Qed.

(** The greedy lines of a normalized text, joined by spaces, are the text:
    no word is lost, added or moved. *)
Lemma greedyLines_join measure maxWidth text :
  joinSp (greedyLines measure maxWidth (normalize text)) = normalize text.
Proof.
  destruct (normalize_shape text) as [Hsp Htrim].
  destruct (normalize text) as [|c r] eqn:E; [rewrite greedyLines_nil; reflexivity|].
  rewrite <- E in *.
  destruct (split_words (normalize text) Hsp (trim_last _ Htrim)) as (w & ws & Hs & Hne & Hw).
  destruct (split_tailOf (normalize text)) as (w0 & ws0 & Hs0 & Hjoin).
  rewrite Hs in Hs0. injection Hs0 as <- <-.
  assert (Hw1 : w <> []).
  { intros H. destruct (Hw H) as [H'|[r' H']].
    - rewrite E in H'. discriminate.
    - pose proof (trim_head _ _ _ (eq_trans Htrim H')) as Hh. discriminate. }
  unfold greedyLines. rewrite Hs.
  change (fold_left (wrapStep measure maxWidth) (w :: ws) ([], []))
    with (fold_left (wrapStep measure maxWidth) ws (wrapStep measure maxWidth ([], []) w)).
  assert (Hfirst : wrapStep measure maxWidth ([], []) w = ([], w)).
  { unfold wrapStep. cbn [isEmpty negb]. rewrite andb_false_r. reflexivity. }
  rewrite Hfirst.
  destruct (wrap_loop_join measure maxWidth ws [] w Hw1 Hne) as [H1 H2].
  destruct (fold_left (wrapStep measure maxWidth) ws ([], w)) as [lines line].
  simpl in H1, H2. destruct line as [|d l]; [contradiction|]. cbn [isEmpty].
  rewrite H2. symmetry. exact Hjoin.
Qed.

(** What is drawn of the greedy lines: all of them when they are at most
    [lineLimit maxLines], else the first [lineLimit maxLines], the last of
    these cut to a prefix that fits with the ellipsis (or to nothing) and
    followed by the ellipsis. *)
Lemma boundedLinesOf_shape measure maxWidth lines maxLines :
  ((length lines <= lineLimit maxLines)%nat ->
   boundedLinesOf measure maxWidth lines maxLines = lines)
  /\ ((lineLimit maxLines < length lines)%nat ->
      exists t rest,
        lines !! (lineLimit maxLines - 1)%nat = Some (t ++ rest)
        /\ ((measure (t ++ ELLIPSIS) <= maxWidth)%Q \/ t = [])
        /\ boundedLinesOf measure maxWidth lines maxLines
           = take (lineLimit maxLines - 1) lines ++ [t ++ ELLIPSIS]).
Proof.
  unfold boundedLinesOf, lineLimit.
  set (limit := Z.max 1 (Qfloor maxLines)).
  assert (Hpos : (1 <= Z.to_nat limit)%nat) by (subst limit; lia).
  split; intros Hlen.
  - destruct (Z.ltb_spec limit (Z.of_nat (length lines))) as [H|_]; [lia|].
    apply take_ge. lia.
  - destruct (Z.ltb_spec limit (Z.of_nat (length lines))) as [_|H]; [|lia].
    rewrite length_take. replace (Z.to_nat limit `min` length lines)%nat
      with (Z.to_nat limit) by lia.
    rewrite lookup_take_lt by lia.
    destruct (lookup_lt_is_Some_2 lines (Z.to_nat limit - 1)%nat) as [l Hl]; [lia|].
    rewrite Hl. change (default [] (Some l)) with l.
    destruct (shrinkToFit_spec measure maxWidth l) as [Hfit [rest Hrest]].
    exists (shrinkToFit measure maxWidth l), rest.
    split; [rewrite <- Hrest; reflexivity|]. split; [exact Hfit|].
    replace (Z.to_nat limit) with (S (Z.to_nat limit - 1)) at 2 by lia.
    rewrite (take_S_r _ _ l) by exact Hl.
    rewrite insert_app_r_alt by (rewrite length_take; lia).
    rewrite length_take.
    replace (Z.to_nat limit - 1 - (Z.to_nat limit - 1) `min` length lines)%nat
      with 0%nat by lia.
    reflexivity.
Qed.

(** X6. A text that needs no more than the allowed number of lines is drawn
    whole: the drawn lines, joined by spaces, are the normalized text. *)
Theorem wrap_without_overflow_keeps_text rt ctx text x y maxWidth lineHeight maxLines :
  (length (greedyLines (measureText rt (font ctx)) maxWidth (normalize text))
   <= lineLimit (default (6 : Q) maxLines))%nat ->
  exists drawn,
    fillTexts (ops (fst (wrapHeadlineText rt ctx text x y maxWidth lineHeight maxLines)))
    = fillTexts (ops ctx) ++ drawn
    /\ joinSp drawn = normalize text.
Proof.
  intros Hlen. rewrite wrapHeadlineText_draws.
  destruct (isEmpty (normalize text)) eqn:E.
  - exists []. split; [reflexivity|]. destruct (normalize text); [reflexivity|discriminate].
  - cbv zeta. eexists. split; [reflexivity|].
    rewrite (proj1 (boundedLinesOf_shape _ _ _ _)) by exact Hlen.
    apply greedyLines_join.
Qed.

(** X7. A text that needs more lines than allowed is drawn on exactly the
    allowed number of lines: the first greedy lines unchanged, then a
    prefix of the next greedy line followed by the ellipsis, which fits the
    width unless the prefix is empty. *)
Theorem wrap_with_overflow_truncates rt ctx text x y maxWidth lineHeight maxLines :
  let measure := measureText rt (font ctx) in
  let lines := greedyLines measure maxWidth (normalize text) in
  let limit := lineLimit (default (6 : Q) maxLines) in
  (limit < length lines)%nat ->
  exists t rest,
    lines !! (limit - 1)%nat = Some (t ++ rest)
    /\ ((measure (t ++ ELLIPSIS) <= maxWidth)%Q \/ t = [])
    /\ fillTexts (ops (fst (wrapHeadlineText rt ctx text x y maxWidth lineHeight maxLines)))
       = fillTexts (ops ctx) ++ take (limit - 1) lines ++ [t ++ ELLIPSIS].
Proof.
  cbv zeta. intros Hlen. rewrite wrapHeadlineText_draws.
  destruct (isEmpty (normalize text)) eqn:E.
  - destruct (normalize text); [|discriminate]. rewrite greedyLines_nil in Hlen.
    simpl in Hlen. lia.
  - cbv zeta.
    destruct (proj2 (boundedLinesOf_shape (measureText rt (font ctx)) maxWidth
                       (greedyLines (measureText rt (font ctx)) maxWidth (normalize text))
                       (default (6 : Q) maxLines)) Hlen) as (t & rest & Hl & Hfit & ->).
    exists t, rest. repeat split; assumption.
Qed.

End WrapText.

Section WrapCount.
Import Page.

Lemma dropWhile_all {A} (p : A -> bool) l :
  Forall (fun x => p x = true) l -> dropWhile p l = [].
Proof. induction 1 as [|x l Hx _ IH]; simpl; [reflexivity|]. rewrite Hx. exact IH. Qed.

Lemma normalize_blank text :
  Forall (fun c => isWhiteSpace c = true) text -> normalize text = [].
Proof.
  intros Hall. unfold normalize. destruct Hall as [|c r Hc Hr].
  - simp replaceAll. reflexivity.
  - rewrite collapse_cons, Hc, dropWhile_all by exact Hr. simp replaceAll. reflexivity.
Qed.

Lemma dropWhile_keeps {A} (p : A -> bool) l x :
  x ∈ l -> p x = false -> x ∈ dropWhile p l.
Proof.
  induction l as [|y l IH]; simpl; intros Hin Hx; [exact Hin|].
  destruct (p y) eqn:E; [|exact Hin].
  apply elem_of_cons in Hin as [->|Hin]; [congruence|]. apply IH; assumption.
Qed.

Lemma collapse_keeps_visible s c :
  c ∈ s -> isWhiteSpace c = false -> c ∈ replaceAll matchSpaces [SP] s.
Proof.
  induction s as [s IH] using list_length_ind. destruct s as [|d r]; intros Hin Hc.
  - inversion Hin.
  - rewrite collapse_cons. destruct (isWhiteSpace d) eqn:Hd.
    + right. apply IH.
      * simpl. pose proof (dropWhile_length isWhiteSpace r). lia.
      * apply dropWhile_keeps; [|exact Hc].
        apply elem_of_cons in Hin as [->|Hin]; [congruence|exact Hin].
      * exact Hc.
    + apply elem_of_cons in Hin as [->|Hin]; [left|right; apply IH; [simpl; lia|assumption..]].
Qed.

Lemma trim_keeps_visible s c : c ∈ s -> isWhiteSpace c = false -> c ∈ trim s.
Proof.
  intros Hin Hc. unfold trim, trimEnd, trimStart.
  apply list_elem_of_In, in_rev. rewrite rev_involutive. apply list_elem_of_In.
  apply dropWhile_keeps; [|exact Hc].
  apply list_elem_of_In, in_rev. rewrite rev_involutive. apply list_elem_of_In.
  apply dropWhile_keeps; assumption.
Qed.

Lemma normalize_visible text c :
  c ∈ text -> isWhiteSpace c = false -> normalize text <> [].
Proof.
  intros Hin Hc H.
  pose proof (trim_keeps_visible _ c (collapse_keeps_visible text c Hin Hc) Hc) as Hn.
  unfold normalize in H. rewrite H in Hn. inversion Hn.
Qed.

Lemma boundedLinesOf_length measure maxWidth lines maxLines :
  length (boundedLinesOf measure maxWidth lines maxLines)
  = Nat.min (lineLimit maxLines) (length lines).
Proof.
  destruct (boundedLinesOf_shape measure maxWidth lines maxLines) as [Hle Hgt].
  destruct (le_lt_dec (length lines) (lineLimit maxLines)) as [H|H].
  - rewrite Hle by exact H. lia.
  - destruct (Hgt H) as (t & rest & _ & _ & ->).
    rewrite length_app, length_take. simpl.
    assert (1 <= lineLimit maxLines)%nat by (unfold lineLimit; lia). lia.
Qed.

(** X8. The number of lines drawn is never more than
    [max(1, floor(maxLines))]; it is zero exactly when the text has nothing
    but white space, and then the returned ordinate is [y] itself. *)
Theorem wrap_line_count rt ctx text x y maxWidth lineHeight maxLines :
  exists drawn,
    fillTexts (ops (fst (wrapHeadlineText rt ctx text x y maxWidth lineHeight maxLines)))
    = fillTexts (ops ctx) ++ drawn
    /\ (length drawn <= lineLimit (default (6 : Q) maxLines))%nat
    /\ (drawn = [] <-> Forall (fun c => isWhiteSpace c = true) text)
    /\ (Forall (fun c => isWhiteSpace c = true) text ->
        wrapHeadlineText rt ctx text x y maxWidth lineHeight maxLines = (ctx, y)).
Proof.
  eexists. split; [apply wrapHeadlineText_draws|].
  assert (Hblank : Forall (fun c => isWhiteSpace c = true) text ->
                   wrapHeadlineText rt ctx text x y maxWidth lineHeight maxLines = (ctx, y)).
  { intros Hall. unfold wrapHeadlineText. rewrite (normalize_blank text Hall). reflexivity. }
  destruct (isEmpty (normalize text)) eqn:E.
  - split; [simpl; lia|]. split; [|exact Hblank]. split; [|reflexivity].
    intros _. apply Forall_forall. intros c Hin.
    destruct (isWhiteSpace c) eqn:Hc; [reflexivity|].
    destruct (normalize_visible text c Hin Hc). destruct (normalize text); [reflexivity|discriminate].
  - cbv zeta. split; [rewrite boundedLinesOf_length; lia|]. split; [|exact Hblank]. split.
    + intros Hnil. apply (f_equal (@length _)) in Hnil.
      rewrite boundedLinesOf_length in Hnil.
      assert (Hjoin := greedyLines_join (measureText rt (font ctx)) maxWidth text).
      destruct (greedyLines (measureText rt (font ctx)) maxWidth (normalize text)).
      * simpl in Hjoin. rewrite <- Hjoin in E. discriminate.
      * assert (1 <= lineLimit (default (6 : Q) maxLines))%nat by (unfold lineLimit; lia).
        simpl in Hnil. lia.
    + intros Hall. rewrite (normalize_blank text Hall) in E. discriminate.
Qed.

Lemma draw_lines_context (x lineHeight : Q) (lines : list jsstring) (ctx : Ctx) (y : Q) :
  let r := fst (fold_left
    (fun '(ctx, currentY) entry => (fillText entry x currentY ctx, (currentY + lineHeight)%Q))
    lines (ctx, y)) in
  font r = font ctx /\ fillStyle r = fillStyle ctx
  /\ exists added, ops r = ops ctx ++ added
       /\ Forall (fun op => exists t y', op = FillText (fillStyle ctx) (font ctx) t x y') added.
Proof.
  cbv zeta. revert ctx y. induction lines as [|l lines IH]; intros ctx y; simpl.
  - repeat split. exists []. rewrite app_nil_r. split; [reflexivity|constructor].
  - destruct (IH (fillText l x y ctx) (y + lineHeight)%Q) as (Hf & Hs & added & Ho & Hall).
    simpl in Hf, Hs, Ho, Hall. split; [exact Hf|]. split; [exact Hs|].
    exists (FillText (fillStyle ctx) (font ctx) l x y :: added).
    rewrite Ho, <- app_assoc. split; [reflexivity|].
    constructor; [eauto|exact Hall].
Qed.

(** X9. [wrapHeadlineText] leaves the font and the fill style of the
    context as they are and keeps what was drawn before; all it adds are
    [fillText] calls at abscissa [x], in that font and style. *)
Theorem wrap_only_fills_text rt ctx text x y maxWidth lineHeight maxLines :
  let r := fst (wrapHeadlineText rt ctx text x y maxWidth lineHeight maxLines) in
  font r = font ctx /\ fillStyle r = fillStyle ctx
  /\ exists added, ops r = ops ctx ++ added
       /\ Forall (fun op => exists t y', op = FillText (fillStyle ctx) (font ctx) t x y') added.
Proof.
  cbv zeta. unfold wrapHeadlineText. destruct (isEmpty (normalize text)).
  - simpl. repeat split. exists []. rewrite app_nil_r. split; [reflexivity|constructor].
  - cbv zeta. apply draw_lines_context.
Qed.

End WrapCount.

Lemma wrap_without_overflow_keeps_text_witness :
  exists drawn,
    Page.fillTexts (Page.ops (fst (Page.wrapHeadlineText sampleRuntime Page.freshCtx
      (js " aa  bb cc dd ") 0 0 50 10 (Some (3 : Q))))) = drawn
    /\ joinSp drawn = js "aa bb cc dd".
Proof.
  destruct (wrap_without_overflow_keeps_text sampleRuntime Page.freshCtx
              (js " aa  bb cc dd ") 0 0 50 10 (Some (3 : Q)))
    as (drawn & Hd & Hj); [vm_compute; lia|].
  exists drawn. split; [exact Hd|exact Hj].
Defined.

Lemma wrap_with_overflow_truncates_witness :
  exists t,
    Page.fillTexts (Page.ops (fst (Page.wrapHeadlineText sampleRuntime Page.freshCtx
      (js "aa bb cc dd ee ff gg") 0 0 50 10 (Some (2 : Q)))))
    = [js "aa bb"; t ++ Page.ELLIPSIS].
Proof.
  destruct (wrap_with_overflow_truncates sampleRuntime Page.freshCtx
              (js "aa bb cc dd ee ff gg") 0 0 50 10 (Some (2 : Q)))
    as (t & rest & _ & _ & Hd); [vm_compute; lia|].
  exists t. exact Hd.
Defined.

Lemma wrap_line_count_witness :
  Page.wrapHeadlineText sampleRuntime Page.freshCtx (js "  ") 0 7 50 10 None
  = (Page.freshCtx, 7%Q).
Proof.
  destruct (wrap_line_count sampleRuntime Page.freshCtx (js "  ") 0 7 50 10 None)
    as (drawn & _ & _ & _ & H).
  apply H. repeat constructor.
Defined.

(** ** Frames: what a card carries, and when rendering fails *)

Section FrameDrawing.
Import Page.

Lemma wrap_draws_linesDrawn rt ctx text x y maxWidth lineHeight maxLines :
  fillTexts (ops (fst (wrapHeadlineText rt ctx text x y maxWidth lineHeight (Some maxLines))))
  = fillTexts (ops ctx) ++ linesDrawn (measureText rt (font ctx)) maxWidth maxLines text.
Proof. apply wrapHeadlineText_draws. Qed.

Lemma linesDrawn_length measure maxWidth maxLines text :
  (length (linesDrawn measure maxWidth maxLines text) <= lineLimit maxLines)%nat.
Proof.
  unfold linesDrawn. destruct (isEmpty (normalize text)); [simpl; lia|].
  rewrite boundedLinesOf_length. lia.
Qed.

(** X10. With a context, the frame [createFrame] returns is named
    [frameNNN.png] and holds the encoding the runtime gives of a drawing
    whose texts are, in this order: the masthead; the lines that
    [wrapHeadlineText] draws for the title of the headline, in the title
    font, 1120 wide, at most three; the lines it draws for the description,
    in the description font, at most four, and none when the description
    is empty; the counter [index + 1 / total]; and the date caption that
    [formatToHindiDate] gives for [publishedAt]. *)
Theorem createFrame_card rt (headline : Headline) (index total : nat) :
  let width := (CANVAS_WIDTH - 160)%Q in
  let titleLines := linesDrawn (measureText rt TITLE_FONT) width 3 (title headline) in
  let descLines :=
    if isEmpty (description headline) then []
    else linesDrawn (measureText rt DESCRIPTION_FONT) width 4 (description headline) in
  exists drawing dateText,
    createFrame rt true headline index total
    = Returns (mkFrame (frameName index) (toPng rt drawing))
    /\ formatToHindiDate rt (publishedAt headline) = Returns dateText
    /\ fillTexts drawing
       = [js "आज की सुर्ख़ियाँ"] ++ titleLines ++ descLines
         ++ [numToString (index + 1) ++ js " / " ++ numToString total; dateText]
    /\ (forall ctx x y lineHeight, font ctx = TITLE_FONT ->
          fillTexts (ops (fst (wrapHeadlineText rt ctx (title headline) x y width lineHeight
                                 (Some (3 : Q)))))
          = fillTexts (ops ctx) ++ titleLines)
    /\ (forall ctx x y lineHeight, font ctx = DESCRIPTION_FONT ->
          description headline <> [] ->
          fillTexts (ops (fst (wrapHeadlineText rt ctx (description headline) x y width
                                 lineHeight (Some (4 : Q)))))
          = fillTexts (ops ctx) ++ descLines)
    /\ (length titleLines <= 3)%nat
    /\ (length descLines <= 4)%nat
    /\ (description headline = [] -> descLines = []).
Proof.
  cbv zeta. unfold createFrame. cbn [negb].
  destruct (formatToHindiDate_returns rt (publishedAt headline)) as [dateText Hd].
  rewrite Hd.
  match goal with |- context [wrapHeadlineText rt ?c (title headline) ?a ?b ?mw ?lh (Some ?ml)] =>
    pose proof (wrap_draws_linesDrawn rt c (title headline) a b mw lh ml) as Ht;
    set (afterTitle := fst (wrapHeadlineText rt c (title headline) a b mw lh (Some ml))) in *
  end.
  cbn [font ops fillText setFont setFillStyle fillRect freshCtx] in Ht.
  rewrite !fillTexts_app in Ht. cbn [fillTexts omap app] in Ht.
  fold TITLE_FONT in Ht.
  assert (Htl : (length (linesDrawn (measureText rt TITLE_FONT) (CANVAS_WIDTH - 160) 3
                           (title headline)) <= 3)%nat).
  { apply (linesDrawn_length _ _ 3). }
  assert (Htitle : forall ctx x y lineHeight, font ctx = TITLE_FONT ->
            fillTexts (ops (fst (wrapHeadlineText rt ctx (title headline) x y
                                   (CANVAS_WIDTH - 160) lineHeight (Some (3 : Q)))))
            = fillTexts (ops ctx)
              ++ linesDrawn (measureText rt TITLE_FONT) (CANVAS_WIDTH - 160) 3 (title headline)).
  { intros ctx x y lineHeight <-. apply wrap_draws_linesDrawn. }
  destruct (isEmpty (description headline)) eqn:Hdesc.
  - eexists _, dateText. split; [reflexivity|]. split; [reflexivity|].
    split; [|split; [exact Htitle|split; [|split; [exact Htl|split; [simpl; lia|reflexivity]]]]].
    + cbn [ops fillText setFont setFillStyle]. rewrite !fillTexts_app, Ht.
      cbn [fillTexts omap app]. rewrite <- !app_assoc. reflexivity.
    + intros ctx x y lineHeight _ Hne. destruct (description headline); [contradiction|discriminate].
  - match goal with |- context [wrapHeadlineText rt ?c (description headline) ?a ?b ?mw ?lh (Some ?ml)] =>
      pose proof (wrap_draws_linesDrawn rt c (description headline) a b mw lh ml) as Hdl;
      set (afterDesc := fst (wrapHeadlineText rt c (description headline) a b mw lh (Some ml))) in *
    end.
    cbn [font ops setFont setFillStyle] in Hdl. fold DESCRIPTION_FONT in Hdl.
    eexists _, dateText. split; [reflexivity|]. split; [reflexivity|].
    split; [|split; [exact Htitle|split; [|split; [exact Htl|split]]]].
    + cbn [ops fillText setFont setFillStyle]. rewrite !fillTexts_app, Hdl, Ht.
      cbn [fillTexts omap app]. rewrite <- !app_assoc. reflexivity.
    + intros ctx x y lineHeight <- _. apply wrap_draws_linesDrawn.
    + apply (linesDrawn_length _ _ 4).
    + intros H. rewrite H in Hdesc. discriminate.
Qed.

Lemma settleAll_first_rejection {A} (tasks : list (Outcome A)) pre i post e values :
  tasks !! i = Some (Throws e) ->
  (forall j, j ∈ pre -> forall e', tasks !! j <> Some (Throws e')) ->
  settleAll (pre ++ i :: post) tasks values = Throws e.
Proof.
  intros Hi. revert values. induction pre as [|j pre IH]; intros values Hpre; simpl.
  - rewrite Hi. reflexivity.
  - assert (Hrest : forall k, k ∈ pre -> forall e', tasks !! k <> Some (Throws e')).
    { intros k Hk. apply Hpre. right. exact Hk. }
    destruct (tasks !! j) as [[v|e'|]|] eqn:Hj.
    + apply IH, Hrest.
    + destruct (Hpre j (list_elem_of_here _ _) e'). exact Hj.
    + apply IH, Hrest.
    + apply IH, Hrest.
Qed.

(** X11. [Promise.all] is rejected with the error of the promise that is
    the first to be rejected, whatever was fulfilled before and whatever
    would have settled after. *)
Theorem promiseAll_first_rejection {A} (tasks : list (Outcome A)) pre i post e :
  tasks !! i = Some (Throws e) ->
  (forall j, j ∈ pre -> forall e', tasks !! j <> Some (Throws e')) ->
  promiseAll (pre ++ i :: post) tasks = Throws e.
Proof. intros Hi Hpre. apply settleAll_first_rejection; assumption. Qed.

Lemma settleAll_same_rejection {A} (tasks : list (Outcome A)) order i e values :
  tasks !! i = Some (Throws e) -> i ∈ order ->
  (forall j e', tasks !! j = Some (Throws e') -> e' = e) ->
  settleAll order tasks values = Throws e.
Proof.
  intros Hi Hin Hsame. revert values.
  induction order as [|j order IH]; intros values; [inversion Hin|]. simpl.
  destruct (decide (j = i)) as [->|Hne]; [rewrite Hi; reflexivity|].
  assert (Hin' : i ∈ order).
  { apply elem_of_cons in Hin as [H|H]; [congruence|exact H]. }
  destruct (tasks !! j) as [[v|e'|]|] eqn:Hj; try (apply IH, Hin').
  rewrite (Hsame j e' Hj). reflexivity.
Qed.

(** X12. If the canvas of one headline gives no 2D context, the rendering
    of the frames fails with the error "Canvas rendering context
    unavailable", whatever the other canvases do and in whatever order the
    promises settle. *)
Theorem renderFrames_without_context rt (hasCtx : nat -> bool) (order : list nat)
    (fetched : list Headline) (i : nat) :
  order ≡ₚ seq 0 (length fetched) ->
  (i < length fetched)%nat -> hasCtx i = false ->
  renderFrames rt hasCtx order fetched
  = Throws (ErrorObject (js "Canvas rendering context unavailable")).
Proof.
  intros Hperm Hi Hctx. unfold renderFrames, promiseAll.
  destruct (lookup_lt_is_Some_2 fetched i Hi) as [item Hitem].
  apply (settleAll_same_rejection _ _ i).
  - rewrite list_lookup_imap, Hitem. simpl. unfold createFrame. rewrite Hctx. reflexivity.
  - rewrite Hperm. apply elem_of_seq. lia.
  - intros j e' Hj. rewrite list_lookup_imap in Hj.
    destruct (fetched !! j) as [item'|]; [|discriminate]. simpl in Hj.
    injection Hj as Hj. destruct (hasCtx j).
    + destruct (createFrame_returns rt item' j (length fetched)) as [bytes Hb].
      rewrite Hb in Hj. discriminate.
    + unfold createFrame in Hj. simpl in Hj. congruence.
Qed.

End FrameDrawing.

Lemma promiseAll_first_rejection_witness :
  Page.promiseAll [2; 0; 1]%nat
    [Returns 10%nat; Throws (ErrorObject (js "late")); Throws OtherValue]
  = Throws OtherValue.
Proof.
  apply (promiseAll_first_rejection
           [Returns 10%nat; Throws (ErrorObject (js "late")); Throws OtherValue]
           [] 2%nat [0; 1]%nat OtherValue).
  - reflexivity.
  - intros j Hj. inversion Hj.
Defined.

Lemma renderFrames_without_context_witness :
  Page.renderFrames sampleRuntime (fun i => negb (i =? 1)%nat) [1; 0]%nat sampleHeadlines
  = Throws (ErrorObject (js "Canvas rendering context unavailable")).
Proof.
  apply (renderFrames_without_context sampleRuntime (fun i => negb (i =? 1)%nat)
           [1; 0]%nat sampleHeadlines 1%nat).
  - simpl. apply perm_swap.
  - simpl. lia.
  - reflexivity.
Defined.

(** ** A run: how it can end *)

Section RunRules.
Import Page.

Lemma quiet_handler {X} (obs : Effect -> option X) raw :
  (forall p, obs (SetProgress p) = None) -> quiet obs (handler raw).
Proof. intros H. destruct raw; [apply quiet_emit, H|apply quiet_ret]. Qed.

Lemma keeps_ret {A} (a : A) : keepsUrlRef (mret a).
Proof. intros s. reflexivity. Qed.
Lemma keeps_await {A} (o : Outcome A) : keepsUrlRef (await o).
Proof. intros s. reflexivity. Qed.
Lemma keeps_throw {A} e : keepsUrlRef (@throw A e).
Proof. intros s. reflexivity. Qed.
Lemma keeps_getRefs : keepsUrlRef getRefs.
Proof. intros s. reflexivity. Qed.
Lemma keeps_emit e : keepsUrlRef (emit e).
Proof. intros s. reflexivity. Qed.
Lemma keeps_setFfmpegRef r : keepsUrlRef (setFfmpegRef r).
Proof. intros s. reflexivity. Qed.
Lemma keeps_setProgressHandlerRef r : keepsUrlRef (setProgressHandlerRef r).
Proof. intros s. reflexivity. Qed.

Lemma keeps_bind {A B} (m : Run A) (f : A -> Run B) :
  keepsUrlRef m -> (forall a, keepsUrlRef (f a)) -> keepsUrlRef (m ≫= f).
Proof.
  intros Hm Hf s. specialize (Hm s). unfold mbind, run_bind.
  destruct (m s) as [[a|e|] s1]; simpl in *; [rewrite Hf|..]; exact Hm.
Qed.

Lemma keeps_when b m : keepsUrlRef m -> keepsUrlRef (when b m).
Proof. intros Hm. destruct b; [exact Hm|apply keeps_ret]. Qed.

Lemma keeps_forEach {A} (l : list A) (f : A -> Run unit) :
  (forall a, keepsUrlRef (f a)) -> keepsUrlRef (forEach l f).
Proof.
  intros Hf. induction l as [|a l IH]; simpl; [apply keeps_ret|].
  apply keeps_bind; [apply Hf|intros _; exact IH].
Qed.

Lemma keeps_handler raw : keepsUrlRef (handler raw).
Proof. destruct raw; [apply keeps_emit|apply keeps_ret]. Qed.

Lemma keeps_ensureFfmpeg w : keepsUrlRef (ensureFfmpeg w).
Proof.
  unfold ensureFfmpeg.
  repeat first
    [ apply keeps_bind; [|intros ?] | apply keeps_when | apply keeps_getRefs
    | apply keeps_await | apply keeps_setFfmpegRef | apply keeps_setProgressHandlerRef ].
Qed.

Lemma keeps_cleanupFfmpegFiles w : keepsUrlRef (cleanupFfmpegFiles w).
Proof.
  intros s. unfold cleanupFfmpegFiles. destruct (ffListDir w) as [entries|e|]; try reflexivity.
  revert s. apply keeps_bind; [|intros _; apply keeps_await].
  apply keeps_forEach. intros entry. apply keeps_emit.
Qed.

Lemma qur_bind {A B X} (obs : Effect -> option X) (m : Run A) (f : A -> Run B) :
  quiet obs m -> keepsUrlRef m -> (forall a, quietUnlessReturns obs (f a)) ->
  quietUnlessReturns obs (m ≫= f).
Proof.
  intros Hm Hk Hf s. destruct (Hm s) as (new1 & Ht1 & Hp1). specialize (Hk s).
  unfold mbind, run_bind. destruct (m s) as [[a|e|] s1]; simpl in *.
  - intros Hnr. destruct (Hf a s1 Hnr) as (Hr & new2 & Ht2 & Hp2).
    split; [congruence|]. exists (new1 ++ new2).
    rewrite Ht2, Ht1, app_assoc, omap_app, Hp1, Hp2. split; reflexivity.
  - intros _. split; [exact Hk|]. exists new1. split; assumption.
  - intros _. split; [exact Hk|]. exists new1. split; assumption.
Qed.

Lemma qur_total {A X} (obs : Effect -> option X) (m : Run A) :
  (forall s, exists a, fst (m s) = Returns a) -> quietUnlessReturns obs m.
Proof. intros Hm s Hnr. destruct (Hm s) as [a Ha]. destruct (Hnr a Ha). Qed.

Lemma returnsDone_bind {A B} url (m : Run A) (f : A -> Run B) :
  quiet nothing m -> (forall a, returnsDone url (f a)) -> returnsDone url (m ≫= f).
Proof.
  intros Hm Hf s b s'. destruct (Hm s) as (new1 & Ht1 & _).
  unfold mbind, run_bind. destruct (m s) as [[a|e|] s1]; simpl in *; try discriminate.
  intros H. destruct (Hf a s1 b s' H) as (Hr & front & Ht). split; [exact Hr|].
  exists (new1 ++ front). rewrite Ht, Ht1, <- !app_assoc. reflexivity.
Qed.

End RunRules.

Ltac solve_quiet_all :=
  repeat first
    [ apply quiet_emit; reflexivity
    | apply quiet_handler; intros; reflexivity
    | apply quiet_await
    | apply quiet_throw
    | apply quiet_getRefs
    | apply quiet_setVideoUrlRef
    | apply quiet_ensureFfmpeg
    | apply quiet_cleanupFfmpegFiles; reflexivity
    | apply quiet_ret
    | apply quiet_when
    | apply quiet_bind; [|intros ?]
    | apply quiet_forEach; intros ? ? ].

Ltac solve_keeps :=
  repeat first
    [ apply keeps_emit
    | apply keeps_handler
    | apply keeps_await
    | apply keeps_throw
    | apply keeps_getRefs
    | apply keeps_ensureFfmpeg
    | apply keeps_cleanupFfmpegFiles
    | apply keeps_ret
    | apply keeps_when
    | apply keeps_bind; [|intros ?]
    | apply keeps_forEach; intros ? ].

Section RunOutcome.
Import Page.

Lemma try_returnsDone rt w : returnsDone (createObjectURL w) (handleGenerate_try rt w).
Proof.
  unfold handleGenerate_try.
  repeat lazymatch goal with
    | |- returnsDone _ (setVideoUrlRef _ ≫= _) => fail
    | |- returnsDone _ (_ ≫= _) => apply returnsDone_bind; [solve_quiet_all|intros ?]
    end.
  intros st ? st' H. injection H as _ <-. split; [reflexivity|].
  exists []. simpl. rewrite <- !app_assoc. reflexivity.
Qed.

Lemma try_quietUnlessReturns {X} (obs : Effect -> option X) rt w :
  (forall e, match e with
             | SetHeadlines _ | SetStatus rendering | SetProgress _ | DeleteFile _
             | WriteFile _ _ | Exec _ | CreateObjectURL _ => obs e = None
             | _ => True
             end) ->
  quietUnlessReturns obs (handleGenerate_try rt w).
Proof.
  intros Hobs. unfold handleGenerate_try.
  repeat lazymatch goal with
    | |- quietUnlessReturns _ (setVideoUrlRef _ ≫= _) => fail
    | |- quietUnlessReturns _ (_ ≫= _) =>
        apply qur_bind; [|solve_keeps|intros ?]
    end.
  all: try (apply qur_total; intros st; eexists; reflexivity).
  all: repeat first
    [ match goal with |- quiet _ (emit ?e) => apply quiet_emit; exact (Hobs e) end
    | apply quiet_handler; intros p; exact (Hobs (SetProgress p))
    | apply quiet_await | apply quiet_throw | apply quiet_getRefs
    | apply quiet_ensureFfmpeg
    | apply quiet_cleanupFfmpegFiles; intros path; exact (Hobs (DeleteFile path))
    | apply quiet_ret | apply quiet_when
    | apply quiet_bind; [|intros ?]
    | apply quiet_forEach; intros ? ? ].
Qed.

Lemma try_quiet_flags rt w :
  quiet generatingOf (handleGenerate_try rt w) /\ quiet errorOf (handleGenerate_try rt w).
Proof. split; unfold handleGenerate_try; solve_quiet_all. Qed.

End RunOutcome.

Ltac run_forward tac :=
  erewrite run_bind_returns by tac; cbv beta;
  cbn [Page.ffmpegRef Page.videoUrlRef Page.progressHandlerRef Page.trace].

Abbreviation catchBlock :=
  (fun err : Thrown =>
     Page.emit (Page.ConsoleError err);;
     Page.emit (Page.SetError (Some match err with
                                    | ErrorObject message => message
                                    | OtherValue => Page.SOMETHING_WENT_WRONG
                                    end));;
     Page.emit (Page.SetStatus Page.error)).

Abbreviation PREFIX_HEAD := [Page.SetError None; Page.SetVideoUrl None].
Abbreviation PREFIX_TAIL :=
  [Page.SetProgress 0; Page.SetStatus Page.fetching; Page.SetIsGenerating true;
   Page.SetProgress 5].

Section RunCases.
Import Page.

(** Lines 224-233: what a run does before its [try] block. *)
Lemma handleGenerate_prefix rt w s0 :
  exists s1 mid,
    handleGenerate rt w s0
    = tryCatchFinally (handleGenerate_try rt w) catchBlock (emit (SetIsGenerating false)) s1
    /\ trace s1 = trace s0 ++ PREFIX_HEAD ++ mid ++ PREFIX_TAIL
    /\ ((isEmpty (default [] (videoUrlRef s0)) = true /\ mid = []
         /\ videoUrlRef s1 = videoUrlRef s0)
        \/ (isEmpty (default [] (videoUrlRef s0)) = false
            /\ mid = [RevokeObjectURL (default [] (videoUrlRef s0))]
            /\ videoUrlRef s1 = None)).
Proof.
  unfold handleGenerate. do 3 (run_forward ltac:(reflexivity)).
  destruct (isEmpty (default [] (videoUrlRef s0))) eqn:E; cbn [negb when].
  - do 5 (run_forward ltac:(reflexivity)). eexists _, []. split; [reflexivity|].
    cbn [trace videoUrlRef]. rewrite <- !app_assoc. split; [reflexivity|]. left. auto.
  - do 5 (run_forward ltac:(reflexivity)). eexists _, [_]. split; [reflexivity|].
    cbn [trace videoUrlRef]. rewrite <- !app_assoc. split; [reflexivity|]. right. auto.
Qed.

Lemma catch_finally_run e s :
  (catchBlock e;; emit (SetIsGenerating false)) s
  = (Returns tt,
     mkRunState (ffmpegRef s) (videoUrlRef s) (progressHandlerRef s)
       (trace s ++ [ConsoleError e; SetError (Some (errorText e)); SetStatus error;
                    SetIsGenerating false])).
Proof.
  unfold mbind, run_bind, emit. cbn [fst snd trace ffmpegRef videoUrlRef progressHandlerRef].
  rewrite <- !app_assoc. destruct e; cbn [errorText app]; reflexivity.
Qed.

(** How a run can end, with what its [try] block added ([body]) and what
    the [catch] and [finally] blocks added ([post]). *)
Lemma run_cases rt w s0 :
  let R := handleGenerate rt w s0 in
  let kept := if isEmpty (default [] (videoUrlRef s0)) then videoUrlRef s0 else None in
  exists mid body post,
    trace (snd R) = trace s0 ++ (PREFIX_HEAD ++ mid ++ PREFIX_TAIL) ++ body ++ post
    /\ (mid = [] /\ isEmpty (default [] (videoUrlRef s0)) = true
        \/ mid = [RevokeObjectURL (default [] (videoUrlRef s0))]
           /\ isEmpty (default [] (videoUrlRef s0)) = false)
    /\ omap generatingOf body = [] /\ omap errorOf body = []
    /\ ((fst R = Returns tt /\ post = [SetIsGenerating false]
         /\ (exists front, body = front ++ DONE_TAIL (createObjectURL w))
         /\ videoUrlRef (snd R) = Some (createObjectURL w))
        \/ (exists e, fst R = Returns tt
              /\ post = [ConsoleError e; SetError (Some (errorText e)); SetStatus error;
                         SetIsGenerating false]
              /\ omap videoUrlOf body = [] /\ videoUrlRef (snd R) = kept)
        \/ (fst R = Pending /\ post = []
            /\ omap videoUrlOf body = [] /\ omap statusButRendering body = []
            /\ videoUrlRef (snd R) = kept)).
Proof.
  cbv zeta. destruct (handleGenerate_prefix rt w s0) as (s1 & mid & -> & Hs1 & Hmid).
  assert (Hkept : videoUrlRef s1
                  = if isEmpty (default [] (videoUrlRef s0)) then videoUrlRef s0 else None).
  { destruct Hmid as [(-> & _ & H)|(-> & _ & H)]; exact H. }
  assert (Hmid' : mid = [] /\ isEmpty (default [] (videoUrlRef s0)) = true
                  \/ mid = [RevokeObjectURL (default [] (videoUrlRef s0))]
                     /\ isEmpty (default [] (videoUrlRef s0)) = false) by tauto.
  destruct (try_quiet_flags rt w) as [Hgen Herr].
  destruct (Hgen s1) as (body & Hbody & Hbgen).
  destruct (Herr s1) as (body' & Hbody' & Hberr).
  assert (body' = body) as -> by (eapply app_inv_head; rewrite <- Hbody, <- Hbody'; reflexivity).
  pose proof (try_returnsDone rt w s1) as Hdone.
  assert (Hvid : quietUnlessReturns videoUrlOf (handleGenerate_try rt w)).
  { apply try_quietUnlessReturns. intros e.
    destruct e as [?|st|?|?|?|?|?|?|?|? ?|?|?]; try destruct st; simpl; auto. }
  assert (Hst : quietUnlessReturns statusButRendering (handleGenerate_try rt w)).
  { apply try_quietUnlessReturns. intros e.
    destruct e as [?|st|?|?|?|?|?|?|?|? ?|?|?]; try destruct st; simpl; auto. }
  unfold tryCatchFinally.
  destruct (handleGenerate_try rt w s1) as [[a|e|] s2] eqn:Eb; cbn [fst snd] in Hbody.
  - exists mid, body, [SetIsGenerating false].
    destruct (Hdone a s2 eq_refl) as (Href & front & Hfront).
    unfold emit. cbn [fst snd trace videoUrlRef].
    split; [rewrite Hbody, Hs1, <- !app_assoc; reflexivity|].
    split; [exact Hmid'|]. split; [exact Hbgen|]. split; [exact Hberr|]. left.
    repeat split; [|exact Href].
    exists front. eapply app_inv_head. rewrite <- Hbody. exact Hfront.
  - exists mid, body, [ConsoleError e; SetError (Some (errorText e)); SetStatus error;
                       SetIsGenerating false].
    destruct (Hvid s1) as (Href & new & Hnew & Hquiet); [rewrite Eb; discriminate|].
    rewrite Eb in Href, Hnew. cbn [fst snd] in Href, Hnew.
    assert (new = body) as -> by (eapply app_inv_head; rewrite <- Hbody, <- Hnew; reflexivity).
    rewrite catch_finally_run. cbn [fst snd trace videoUrlRef].
    split; [rewrite Hbody, Hs1, <- !app_assoc; reflexivity|].
    split; [exact Hmid'|]. split; [exact Hbgen|]. split; [exact Hberr|]. right. left.
    exists e. repeat split; [exact Hquiet|]. rewrite Href. exact Hkept.
  - exists mid, body, [].
    destruct (Hvid s1) as (Href & new & Hnew & Hquiet); [rewrite Eb; discriminate|].
    destruct (Hst s1) as (_ & new' & Hnew' & Hquiet'); [rewrite Eb; discriminate|].
    rewrite Eb in Href, Hnew, Hnew'. cbn [fst snd] in Href, Hnew, Hnew'.
    assert (new = body) as -> by (eapply app_inv_head; rewrite <- Hbody, <- Hnew; reflexivity).
    assert (new' = body) as -> by (eapply app_inv_head; rewrite <- Hbody, <- Hnew'; reflexivity).
    cbn [fst snd].
    split; [rewrite Hbody, Hs1, app_nil_r, <- !app_assoc; reflexivity|].
    split; [exact Hmid'|]. split; [exact Hbgen|]. split; [exact Hberr|]. right. right.
    repeat split; [exact Hquiet|exact Hquiet'|]. rewrite Href. exact Hkept.
Qed.

End RunCases.

Section RunEnds.
Import Page.

Lemma fold_video_quiet l st :
  omap videoUrlOf l = [] ->
  fold_left (fun st e => match e with SetVideoUrl u => u | _ => st end) l st = st.
Proof.
  revert st. induction l as [|e l IH]; intros st H; [reflexivity|].
  destruct e; simpl in *; try discriminate; apply IH; exact H.
Qed.

Lemma fold_error_quiet l st :
  omap errorOf l = [] ->
  fold_left (fun st e => match e with SetError m => m | _ => st end) l st = st.
Proof.
  revert st. induction l as [|e l IH]; intros st H; [reflexivity|].
  destruct e; simpl in *; try discriminate; apply IH; exact H.
Qed.

Lemma fold_status_rendering l st :
  omap statusButRendering l = [] ->
  fold_left (fun st e => match e with SetStatus s => s | _ => st end) l st = st
  \/ fold_left (fun st e => match e with SetStatus s => s | _ => st end) l st = rendering.
Proof.
  revert st. induction l as [|e l IH]; intros st H; [left; reflexivity|].
  destruct e as [?|s'|?|?|?|?|?|?|?|? ?|?|?]; simpl in *; try (apply IH; exact H).
  destruct s'; simpl in H; try discriminate.
  destruct (IH rendering H) as [E|E]; right; exact E.
Qed.

(** X13. However a run goes, the screen is left in one of three consistent
    states: done, with the video URL, no error text and progress 100;
    error, with an error text and no video; or, when a step never settles,
    still fetching or rendering with neither video nor error text. *)
Theorem run_final_state rt w (s0 : RunState) :
  let R := handleGenerate rt w s0 in
  let t := trace (snd R) in
  (fst R = Returns tt /\ statusAfter t = done
   /\ videoUrlAfter t = Some (createObjectURL w) /\ errorAfter t = None
   /\ last (progressUpdates t) = Some 100%Z)
  \/ (fst R = Returns tt /\ statusAfter t = error
      /\ videoUrlAfter t = None /\ exists e, errorAfter t = Some (errorText e))
  \/ (fst R = Pending /\ (statusAfter t = fetching \/ statusAfter t = rendering)
      /\ videoUrlAfter t = None /\ errorAfter t = None).
Proof.
  cbv zeta.
  destruct (run_cases rt w s0) as (mid & body & post & Ht & Hmid & _ & Herr & Hcase).
  rewrite Ht. clear Ht.
  assert (Hmidv : omap videoUrlOf mid = [] /\ omap errorOf mid = []
                  /\ omap statusButRendering mid = []).
  { destruct Hmid as [[-> _]|[-> _]]; repeat split. }
  destruct Hmidv as (Hmv & Hme & Hms).
  unfold statusAfter, videoUrlAfter, errorAfter, progressUpdates.
  destruct Hcase as [(HR & -> & [front ->] & _)|[(e & HR & -> & Hvid & _)|(HR & -> & Hvid & Hst & _)]].
  - left. split; [exact HR|].
    rewrite !fold_left_app, !omap_app.
    cbn [fold_left DONE_TAIL omap list_omap progressOf].
    rewrite app_nil_r, !app_assoc, last_snoc.
    rewrite omap_app in Herr. apply app_eq_nil in Herr as [Hfe _].
    rewrite (fold_error_quiet front) by exact Hfe.
    rewrite (fold_error_quiet mid) by exact Hme. repeat split.
  - right. left. split; [exact HR|].
    rewrite !fold_left_app. cbn [fold_left].
    rewrite (fold_video_quiet body) by exact Hvid.
    rewrite (fold_video_quiet mid) by exact Hmv. repeat split. exists e. reflexivity.
  - right. right. split; [exact HR|].
    rewrite !fold_left_app. cbn [fold_left].
    rewrite (fold_video_quiet body) by exact Hvid.
    rewrite (fold_video_quiet mid) by exact Hmv.
    rewrite (fold_error_quiet body) by exact Herr.
    rewrite (fold_error_quiet mid) by exact Hme. split; [|split; reflexivity].
    destruct (fold_status_rendering body fetching Hst) as [E|E]; rewrite E; auto.
Qed.

(** X14. A run never throws. It sets the in-progress flag once at its
    start and resets it exactly when it settles: a run that hangs leaves
    the flag set. *)
Theorem run_progress_flag rt w (s0 : RunState) :
  let R := handleGenerate rt w s0 in
  (forall e, fst R <> Throws e)
  /\ exists new,
       trace (snd R) = trace s0 ++ new
       /\ omap generatingOf new = (if isPending (fst R) then [true] else [true; false])
       /\ (fst R = Returns tt -> last new = Some (SetIsGenerating false)).
Proof.
  cbv zeta.
  destruct (run_cases rt w s0) as (mid & body & post & Ht & Hmid & Hgen & _ & Hcase).
  assert (Hmg : omap generatingOf mid = []).
  { destruct Hmid as [[-> _]|[-> _]]; reflexivity. }
  assert (Hall : omap generatingOf ((PREFIX_HEAD ++ mid ++ PREFIX_TAIL) ++ body ++ post)
                 = true :: omap generatingOf post).
  { rewrite !omap_app, Hmg, Hgen. reflexivity. }
  destruct Hcase as [(HR & -> & _)|[(e & HR & -> & _)|(HR & -> & _)]].
  - split; [rewrite HR; discriminate|]. eexists. split; [exact Ht|].
    rewrite Hall, HR. split; [reflexivity|]. intros _. rewrite !app_assoc. apply last_snoc.
  - split; [rewrite HR; discriminate|]. eexists. split; [exact Ht|].
    rewrite Hall, HR. split; [reflexivity|]. intros _.
    change [ConsoleError e; SetError (Some (errorText e)); SetStatus error;
            SetIsGenerating false]
      with ([ConsoleError e; SetError (Some (errorText e)); SetStatus error]
            ++ [SetIsGenerating false]).
    rewrite !app_assoc. apply last_snoc.
  - split; [rewrite HR; discriminate|]. eexists. split; [exact Ht|].
    rewrite Hall, HR. split; [reflexivity|]. discriminate.
Qed.

(** X15. [videoUrlRef] follows the screen: after a run it holds the video
    URL the screen shows, if any; and a URL it held before is revoked at
    the start of the run, before anything else is fetched or created. *)
Theorem url_ref_follows_screen rt w (s0 : RunState) :
  videoUrlRef s0 <> Some [] ->
  let R := handleGenerate rt w s0 in
  videoUrlRef (snd R) = videoUrlAfter (trace (snd R))
  /\ (forall u, videoUrlRef s0 = Some u ->
        exists after, trace (snd R)
          = trace s0 ++ [SetError None; SetVideoUrl None; RevokeObjectURL u] ++ after).
Proof.
  intros Hne. cbv zeta.
  destruct (run_cases rt w s0) as (mid & body & post & Ht & Hmid & _ & _ & Hcase).
  assert (Hkept : (if isEmpty (default [] (videoUrlRef s0)) then videoUrlRef s0 else None)
                  = None).
  { destruct (videoUrlRef s0) as [[|c u]|]; simpl; [contradiction|reflexivity..]. }
  assert (Hmv : omap videoUrlOf mid = []).
  { destruct Hmid as [[-> _]|[-> _]]; reflexivity. }
  split.
  - rewrite Ht. unfold videoUrlAfter.
    destruct Hcase as [(_ & -> & [front ->] & Href)|[(e & _ & -> & Hvid & Href)
                                                    |(_ & -> & Hvid & _ & Href)]].
    + rewrite Href, !fold_left_app. reflexivity.
    + rewrite Href, Hkept, !fold_left_app. cbn [fold_left].
      rewrite (fold_video_quiet body) by exact Hvid.
      rewrite (fold_video_quiet mid) by exact Hmv. reflexivity.
    + rewrite Href, Hkept, !fold_left_app. cbn [fold_left].
      rewrite (fold_video_quiet body) by exact Hvid.
      rewrite (fold_video_quiet mid) by exact Hmv. reflexivity.
  - intros u Hu. rewrite Hu in *. destruct u as [|c u]; [contradiction|].
    destruct Hmid as [[_ Hf]|[-> _]]; [discriminate|].
    exists (PREFIX_TAIL ++ body ++ post).
    rewrite Ht, <- !app_assoc. reflexivity.
Qed.

End RunEnds.

Lemma url_ref_follows_screen_witness :
  Page.videoUrlRef (snd (Page.handleGenerate sampleRuntime sampleWorld
                           (Page.mkRunState (Some true) (Some (js "blob:old")) true [])))
  = Some (js "blob:video")
  /\ exists after,
       Page.trace (snd (Page.handleGenerate sampleRuntime sampleWorld
                          (Page.mkRunState (Some true) (Some (js "blob:old")) true [])))
       = [Page.SetError None; Page.SetVideoUrl None; Page.RevokeObjectURL (js "blob:old")]
         ++ after.
Proof.
  destruct (url_ref_follows_screen sampleRuntime sampleWorld
              (Page.mkRunState (Some true) (Some (js "blob:old")) true []))
    as [Href Hrev]; [vm_compute; discriminate|].
  split.
  - rewrite Href. reflexivity.
  - destruct (Hrev (js "blob:old") eq_refl) as [after Hafter]. exists after. exact Hafter.
Defined.

(** ** A run: when the request fails *)

Section RequestFails.
Import Page.

Lemma failed_run_trace (s0 : RunState) (e : Thrown) :
  forall s1 mid body,
    trace s1 = trace s0 ++ PREFIX_HEAD ++ mid ++ PREFIX_TAIL ->
    omap statusOf mid = [] -> omap errorOf mid = [] ->
    body = [] ->
    let t := trace s1 ++ body
             ++ [ConsoleError e; SetError (Some (errorText e)); SetStatus error;
                 SetIsGenerating false] in
    exists new, t = trace s0 ++ new
      /\ statusUpdates new = [fetching; error]
      /\ errorAfter t = Some (errorText e).
Proof.
  intros s1 mid body Hs1 Hms Hme -> . cbv zeta. rewrite Hs1.
  eexists. split; [rewrite <- !app_assoc; reflexivity|]. split.
  - unfold statusUpdates. rewrite !omap_app, Hms. reflexivity.
  - unfold errorAfter. rewrite !fold_left_app. reflexivity.
Qed.

(** X16. When the request for the headlines fails, the run ends in the
    error state without ever reaching [rendering]: with the text of the
    thrown error when [fetch] throws, with the [error] field of the answer
    when the status is not a success and the body has one, and with
    "Headlines fetch failed" when it has none or cannot be read. *)
Theorem failed_request_is_error rt w (s0 : RunState) (message : jsstring) :
  ((exists e, fetchHeadlines w = Throws e /\ message = errorText e)
   \/ (exists response, fetchHeadlines w = Returns response /\ resp_ok response = false
        /\ ((exists payload, resp_json response = Returns payload
               /\ message = default (js "Headlines fetch failed") (payload_error payload))
            \/ (exists e, resp_json response = Throws e)
               /\ message = js "Headlines fetch failed"))) ->
  let R := handleGenerate rt w s0 in
  fst R = Returns tt
  /\ statusAfter (trace (snd R)) = error
  /\ errorAfter (trace (snd R)) = Some message
  /\ exists new, trace (snd R) = trace s0 ++ new /\ statusUpdates new = [fetching; error].
Proof.
  intros Hfail. cbv zeta.
  destruct (handleGenerate_prefix rt w s0) as (s1 & mid & -> & Hs1 & Hmid).
  assert (Hm : omap statusOf mid = [] /\ omap errorOf mid = []).
  { destruct Hmid as [(_ & -> & _)|(_ & -> & _)]; split; reflexivity. }
  destruct Hm as [Hms Hme].
  assert (Htry : exists e, handleGenerate_try rt w s1 = (Throws e, s1) /\ errorText e = message).
  { unfold handleGenerate_try.
    destruct Hfail as [(e & Hf & ->)|(response & Hf & Hok & Hjson)].
    - exists e. unfold mbind, run_bind, await. rewrite Hf. split; reflexivity.
    - run_forward ltac:(unfold await; rewrite Hf; reflexivity).
      rewrite Hok. cbn [negb when].
      destruct Hjson as [(payload & Hj & ->)|([e Hj] & ->)].
      + exists (ErrorObject (default (js "Headlines fetch failed") (payload_error payload))).
        unfold mbind, run_bind, await, throw. rewrite Hj. split; reflexivity.
      + exists (ErrorObject (js "Headlines fetch failed")).
        unfold mbind, run_bind, await, throw. rewrite Hj. split; reflexivity. }
  destruct Htry as (e & Htry & <-).
  unfold tryCatchFinally. rewrite Htry, catch_finally_run. cbn [fst snd trace].
  destruct (failed_run_trace s0 e s1 mid [] Hs1 Hms Hme eq_refl) as (new & Hnew & Hst & Herr).
  cbn [app] in Hnew, Herr.
  split; [reflexivity|]. split; [|split; [exact Herr|exists new; split; assumption]].
  unfold statusAfter. rewrite fold_left_app. reflexivity.
Qed.

End RequestFails.

Lemma failed_request_is_error_witness :
  Page.errorAfter (Page.trace (snd (Page.handleGenerate sampleRuntime badGatewayWorld
                                      Page.mounted)))
  = Some (js "Failed to fetch headlines").
Proof.
  apply (failed_request_is_error sampleRuntime badGatewayWorld Page.mounted
           (js "Failed to fetch headlines")).
  right.
  exists (Page.mkHeadlinesResponse false
            (Returns (Page.mkPayload None (Some (js "Failed to fetch headlines"))))).
  split; [reflexivity|]. split; [reflexivity|]. left.
  exists (Page.mkPayload None (Some (js "Failed to fetch headlines"))).
  split; [reflexivity|]. cbn [default Page.payload_error from_option id]. reflexivity.
Defined.

(** ** The encoder: cleaning up and loading *)

Section EncoderBoundary.
Import Page.

Lemma startsWith_app p s : startsWith p (p ++ s) = true.
Proof. induction p as [|c p IH]; [reflexivity|]. simpl. rewrite N.eqb_refl. exact IH. Qed.

Lemma startsWith_prefix p s : startsWith p s = true <-> exists rest, s = p ++ rest.
Proof.
  split.
  - revert s. induction p as [|c p IH]; intros s H; [exists s; reflexivity|].
    destruct s as [|d s]; [discriminate|]. simpl in H.
    apply andb_true_iff in H as [Hc Hp]. apply N.eqb_eq in Hc as ->.
    destruct (IH s Hp) as [rest ->]. exists rest. reflexivity.
  - intros [rest ->]. apply startsWith_app.
Qed.

Lemma forEach_emits {A} (l : list A) (g : A -> Effect) s :
  forEach l (fun a => emit (g a)) s
  = (Returns tt,
     mkRunState (ffmpegRef s) (videoUrlRef s) (progressHandlerRef s) (trace s ++ map g l)).
Proof.
  revert s. induction l as [|a l IH]; intros s.
  - simpl. rewrite app_nil_r. destruct s; reflexivity.
  - rewrite forEach_cons. unfold emit at 1. rewrite IH. simpl. rewrite <- app_assoc. reflexivity.
Qed.

(** X17. The clean-up never throws, whatever the listing and the deletions
    do. Given a listing, it asks for the deletion of exactly the entries
    that are not directories and whose name starts with "frame" or is
    "output.mp4", in the order of the listing; so every frame file and the
    video of an earlier run are among them, and no directory is. *)
Theorem cleanup_deletes_stale_files w (s : RunState) :
  (forall e, fst (cleanupFfmpegFiles w s) <> Throws e)
  /\ (forall e, ffListDir w = Throws e -> cleanupFfmpegFiles w s = (Returns tt, s))
  /\ (forall entries, ffListDir w = Returns entries ->
        exists paths,
          trace (snd (cleanupFfmpegFiles w s)) = trace s ++ map DeleteFile paths
          /\ paths = map node_name (List.filter isStale entries)
          /\ (forall path, path ∈ paths <->
                exists entry, entry ∈ entries /\ node_name entry = path
                  /\ isDir entry = false
                  /\ ((exists rest, path = js "frame" ++ rest) \/ path = js "output.mp4"))
          /\ (forall i, mkFSNode (frameName i) false ∈ entries -> frameName i ∈ paths)
          /\ (fst (cleanupFfmpegFiles w s) = Returns tt
              <-> forall path, path ∈ paths -> ffDeleteFile w path <> Pending)).
Proof.
  unfold cleanupFfmpegFiles. destruct (ffListDir w) as [entries|e|] eqn:Hlist.
  2:{ split; [discriminate|]. split; [reflexivity|]. discriminate. }
  2:{ split; [discriminate|]. split; discriminate. }
  assert (Hrun : forall ok : bool,
            (forEach (List.filter isStale entries)
               (fun entry => emit (DeleteFile (node_name entry)));;
             await (if ok then Returns tt else Pending)) s
            = (if ok then Returns tt else Pending,
               mkRunState (ffmpegRef s) (videoUrlRef s) (progressHandlerRef s)
                 (trace s ++ map DeleteFile (map node_name (List.filter isStale entries))))).
  { intros ok. unfold mbind, run_bind.
    rewrite (forEach_emits _ (fun entry => DeleteFile (node_name entry))).
    rewrite map_map. reflexivity. }
  rewrite Hrun. cbn [fst snd trace].
  assert (Hstale : forall entry, isStale entry = true <->
            isDir entry = false
            /\ ((exists rest, node_name entry = js "frame" ++ rest)
                \/ node_name entry = js "output.mp4")).
  { intros entry. unfold isStale.
    rewrite andb_true_iff, negb_true_iff, orb_true_iff, startsWith_prefix,
      bool_decide_eq_true. reflexivity. }
  assert (Hin : forall path, path ∈ map node_name (List.filter isStale entries) <->
            exists entry, entry ∈ entries /\ node_name entry = path
              /\ isDir entry = false
              /\ ((exists rest, path = js "frame" ++ rest) \/ path = js "output.mp4")).
  { intros path. rewrite list_elem_of_In, in_map_iff. split.
    - intros (entry & <- & Hf). apply filter_In in Hf as [Hf Hs].
      apply Hstale in Hs. exists entry. rewrite list_elem_of_In. tauto.
    - intros (entry & He & <- & Hd). exists entry. split; [reflexivity|].
      apply filter_In. rewrite <- list_elem_of_In. split; [exact He|]. apply Hstale, Hd. }
  split; [destruct (forallb _ _); discriminate|]. split; [discriminate|].
  intros entries' [= <-]. eexists. split; [reflexivity|]. split; [reflexivity|].
  split; [exact Hin|]. split.
  - intros i Hi. apply Hin. exists (mkFSNode (frameName i) false).
    repeat split; [exact Hi|]. left. unfold frameName. eauto.
  - destruct (forallb _ _) eqn:Hall.
    + split; [|reflexivity]. intros _ path Hpath.
      rewrite forallb_forall in Hall.
      apply list_elem_of_In, in_map_iff in Hpath as (entry & <- & Hentry).
      specialize (Hall entry Hentry). intros Hp. rewrite Hp in Hall. discriminate.
    + split; [discriminate|]. intros Hnp. exfalso.
      apply not_true_iff_false in Hall. apply Hall, forallb_forall.
      intros entry Hentry. specialize (Hnp (node_name entry)).
      destruct (ffDeleteFile w (node_name entry)); try reflexivity.
      exfalso. apply Hnp; [|reflexivity].
      apply list_elem_of_In, in_map_iff. eauto.
Qed.

(** X18. Once the encoder is loaded it is not loaded again: a second
    [ensureFfmpeg] returns at once, whatever [load] would do, and changes
    nothing. When [load] throws, the instance stays in the ref, unloaded,
    with its progress handler, so the next run loads it without attaching
    a second handler. *)
Theorem ensureFfmpeg_loads_once w (s s' : RunState) :
  (ensureFfmpeg w s = (Returns tt, s') ->
     ffmpegRef s' = Some true /\ trace s' = trace s
     /\ forall w', ensureFfmpeg w' s' = (Returns tt, s'))
  /\ (forall e, ensureFfmpeg w s = (Throws e, s') ->
        ffLoad w = Throws e /\ ffmpegRef s' = Some false /\ trace s' = trace s
        /\ forall w', ffLoad w' = Returns tt ->
             exists s'', ensureFfmpeg w' s' = (Returns tt, s'')
               /\ progressHandlerRef s'' = progressHandlerRef s').
Proof.
  destruct s as [[[|]|] vu ph t];
    unfold ensureFfmpeg, mbind, run_bind, getRefs, when, await, setFfmpegRef,
      setProgressHandlerRef; simpl.
  - split.
    + intros [= <-]. repeat split.
    + intros e [=].
  - destruct (ffLoad w) as [[]|e0|]; simpl; (split; [|intros e]); intros H;
      try discriminate; injection H as <-; subst.
    + repeat split.
    + repeat split. intros w' Hw'. rewrite Hw'. simpl. eauto.
  - destruct (ffLoad w) as [[]|e0|]; simpl; (split; [|intros e]); intros H;
      try discriminate; injection H as <-; subst.
    + repeat split.
    + repeat split. intros w' Hw'. rewrite Hw'. simpl. eauto.
Qed.

End EncoderBoundary.

Lemma cleanup_deletes_stale_files_witness :
  Page.trace (snd (Page.cleanupFfmpegFiles secondRunWorld Page.mounted))
  = [Page.DeleteFile (js "frame000.png"); Page.DeleteFile (js "output.mp4")]
  /\ fst (Page.cleanupFfmpegFiles secondRunWorld Page.mounted) = Returns tt.
Proof.
  destruct (proj2 (proj2 (cleanup_deletes_stale_files secondRunWorld Page.mounted))
              _ eq_refl) as (paths & Ht & -> & _ & _ & Hret).
  split; [rewrite Ht; vm_compute; reflexivity|].
  apply Hret. intros path Hpath Hp.
  vm_compute in Hpath. unfold secondRunWorld in Hp. cbn [Page.ffDeleteFile] in Hp.
  destruct (bool_decide _); discriminate.
Defined.

Lemma ensureFfmpeg_loads_once_witness :
  Page.ensureFfmpeg emptyFeedWorld
    (snd (Page.ensureFfmpeg sampleWorld Page.mounted))
  = (Returns tt, snd (Page.ensureFfmpeg sampleWorld Page.mounted)).
Proof.
  apply (proj1 (ensureFfmpeg_loads_once sampleWorld Page.mounted
                  (snd (Page.ensureFfmpeg sampleWorld Page.mounted)))).
  reflexivity.
Defined.

(** ** A run: the range of the progress *)

Section ProgressRange.
Import Page.

Variable P : Z -> Prop.

Lemma progressAll_quiet {A} (m : Run A) : quiet progressOf m -> progressAll P m.
Proof.
  intros Hm s. destruct (Hm s) as (new & Ht & Hq). exists new. split; [exact Ht|].
  unfold progressUpdates. rewrite Hq. constructor.
Qed.

Lemma progressAll_emit p : P p -> progressAll P (emit (SetProgress p)).
Proof. intros Hp s. exists [SetProgress p]. split; [reflexivity|]. repeat constructor. exact Hp. Qed.

Lemma progressAll_bind {A B} (m : Run A) (f : A -> Run B) :
  progressAll P m -> (forall a, progressAll P (f a)) -> progressAll P (m ≫= f).
Proof.
  intros Hm Hf s. destruct (Hm s) as (new1 & Ht1 & Hp1).
  unfold mbind, run_bind. destruct (m s) as [[a|e|] s1]; simpl in Ht1.
  - destruct (Hf a s1) as (new2 & Ht2 & Hp2). exists (new1 ++ new2).
    rewrite Ht2, Ht1, app_assoc, progressUpdates_app. split; [reflexivity|].
    apply Forall_app. split; assumption.
  - exists new1. split; assumption.
  - exists new1. split; assumption.
Qed.

Lemma progressAll_when b m : progressAll P m -> progressAll P (when b m).
Proof. intros Hm. destruct b; [exact Hm|apply progressAll_quiet, quiet_ret]. Qed.

Lemma progressAll_forEach {A} (l : list A) (f : A -> Run unit) :
  (forall a, a ∈ l -> progressAll P (f a)) -> progressAll P (forEach l f).
Proof.
  induction l as [|a l IH]; intros Hf; simpl; [apply progressAll_quiet, quiet_ret|].
  apply progressAll_bind; [apply Hf; left|].
  intros _. apply IH. intros b Hb. apply Hf. right. exact Hb.
Qed.

Lemma progressAll_tryCatchFinally body handler fin :
  progressAll P body -> (forall e, quiet progressOf (handler e)) -> quiet progressOf fin ->
  progressAll P (tryCatchFinally body handler fin).
Proof.
  intros Hbody Hh Hfin s. destruct (Hbody s) as (new1 & Ht1 & Hp1).
  destruct (tryCatchFinally_appends progressOf body handler fin s Hh Hfin)
    as (post & Hpost & Hq).
  exists (new1 ++ post). rewrite Hpost, Ht1, app_assoc, progressUpdates_app.
  split; [reflexivity|]. apply Forall_app. split; [exact Hp1|].
  unfold progressUpdates. rewrite Hq. constructor.
Qed.

End ProgressRange.

Ltac pass_progress Hcheck :=
  match goal with
  | |- progressAll _ (Page.emit (Page.SetProgress _) ≫= _) =>
      apply progressAll_bind; [apply Hcheck; lia|intros _]
  | |- progressAll _ (Page.emit (Page.SetProgress _)) => apply Hcheck; lia
  | |- progressAll _ (_ ≫= _) =>
      apply progressAll_bind; [apply progressAll_quiet; solve [solve_quiet_all]|intros ?]
  | |- progressAll _ _ => apply progressAll_quiet; solve [solve_quiet_all]
  end.

Section ProgressBounds.
Import Page.

Lemma Math_round_nonneg (q : Q) : (0 <= q)%Q -> (0 <= Math_round (q * 100))%Z.
Proof.
  intros Hq. unfold Math_round. change 0%Z with (Qfloor 0). apply Qfloor_resp_le.
  apply Qle_trans with (q * 100)%Q.
  - apply Qmult_le_0_compat; [exact Hq|discriminate].
  - rewrite <- (Qplus_0_r (q * 100)) at 1. apply Qplus_le_r. discriminate.
Qed.

(** X19. No progress update of a run is above 100; and when the encoder
    reports no negative ratio, none is below 0. *)
Theorem progress_within_bounds rt w (s0 : RunState) :
  exists new,
    trace (snd (handleGenerate rt w s0)) = trace s0 ++ new
    /\ Forall (fun p => (p <= 100)%Z) (progressUpdates new)
    /\ (Forall (fun raw => forall q, raw = Some q -> (0 <= q)%Q) (ffExecProgress w) ->
        Forall (fun p => (0 <= p)%Z) (progressUpdates new)).
Proof.
  set (nonneg := Forall (fun raw => forall q, raw = Some q -> (0 <= q)%Q) (ffExecProgress w)).
  set (P := fun p => (p <= 100)%Z /\ (nonneg -> (0 <= p)%Z)).
  assert (H : progressAll P (handleGenerate rt w)).
  { assert (Hcheck : forall p, (0 <= p <= 100)%Z -> progressAll P (emit (SetProgress p))).
    { intros p Hp. apply progressAll_emit. split; [lia|intros _; lia]. }
    unfold handleGenerate.
    repeat pass_progress Hcheck.
    apply progressAll_tryCatchFinally; [|intros e; solve_quiet_all|solve_quiet_all].
    unfold handleGenerate_try.
    repeat pass_progress Hcheck.
    apply progressAll_bind; [|intros _; repeat pass_progress Hcheck].
    apply progressAll_when, progressAll_forEach. intros raw Hraw. unfold handler.
    destruct raw as [q|]; [|apply progressAll_quiet, quiet_ret].
    apply progressAll_emit. split; [lia|].
    intros Hnonneg. apply Z.min_glb; [lia|]. apply Math_round_nonneg.
    unfold nonneg in Hnonneg. rewrite Forall_forall in Hnonneg.
    apply (Hnonneg (Some q)); [|reflexivity].
    exact Hraw. }
  destruct (H s0) as (new & Ht & Hall). exists new. split; [exact Ht|]. split.
  - eapply Forall_impl; [exact Hall|]. intros p [Hp _]. exact Hp.
  - intros Hnonneg. eapply Forall_impl; [exact Hall|]. intros p [_ Hp]. apply Hp, Hnonneg.
Qed.

End ProgressBounds.

Lemma checkpoints_nondecreasing_witness :
  climbs 0 100 (Page.handleGenerate sampleRuntime silentEncoderWorld).
Proof.
  apply (checkpoints_nondecreasing sampleRuntime silentEncoderWorld).
  repeat constructor.
Defined.

Lemma run_stages_rendered_frames_witness :
  exists frames,
    omap stagingOf
      (Page.trace (snd (Page.handleGenerate sampleRuntime sampleWorld Page.mounted)))
    = (writeOf <$> frames) ++ [Page.Exec Page.EXEC_ARGS]
    /\ Page.name <$> frames = [js "frame000.png"; js "frame001.png"].
Proof.
  destruct (run_stages_rendered_frames sampleRuntime sampleWorld Page.mounted
              (Page.mkHeadlinesResponse true
                 (Returns (Page.mkPayload (Some sampleHeadlines) None)))
              (Page.mkPayload (Some sampleHeadlines) None) sampleHeadlines)
    as (frames & new & _ & Hnames & Ht & _ & _ & Hstaging);
    try reflexivity.
  - discriminate.
  - simpl. lia.
  - simpl. apply perm_swap.
  - exists frames. split; [rewrite Ht; exact Hstaging|exact Hnames].
Defined.

Lemma progress_within_bounds_witness :
  exists new,
    Page.trace (snd (Page.handleGenerate sampleRuntime sampleWorld Page.mounted))
    = Page.trace Page.mounted ++ new
    /\ Forall (fun p => (0 <= p <= 100)%Z) (Page.progressUpdates new).
Proof.
  destruct (progress_within_bounds sampleRuntime sampleWorld Page.mounted)
    as (new & Ht & Hhi & Hlo).
  exists new. split; [exact Ht|].
  apply Forall_and. split; [apply Hlo|exact Hhi].
  unfold sampleWorld. cbn [Page.ffExecProgress].
  repeat (constructor; [intros q [= <-]; discriminate|]).
  constructor.
Defined.

Lemma createFrame_card_witness :
  exists drawing,
    Page.createFrame sampleRuntime true (mkHeadline [65; 32; 32; 66] [] [] []) 0 2
    = Returns (Page.mkFrame (frameName 0) (Page.toPng sampleRuntime drawing))
    /\ Page.fillTexts drawing
       = [js "आज की सुर्ख़ियाँ"; [65; 32; 66]; js "1 / 2"; Page.TIME_UNAVAILABLE].
Proof.
  destruct (createFrame_card sampleRuntime (mkHeadline [65; 32; 32; 66] [] [] []) 0 2)
    as (drawing & dateText & Hc & Hd & Hf & _).
  exists drawing. split; [exact Hc|].
  vm_compute in Hd. injection Hd as <-. rewrite Hf. vm_compute. reflexivity.
Defined.
